(** * cpp-thunk: deferred ([Lazy]) and memoized ([Thunk]) values

    A shallow embedding of the four translation units of the repository

      - [lazy.cc]              [Lazy<Result>] over a [std::function]
      - [lazy_functionless.cc] [Lazy<Lambda>] over the closure itself
                               (and a second copy of [thunk.cc]'s [Thunk])
      - [thunk.cc]             [Thunk<Result>] over a [std::function] that
                               overwrites itself on first use
      - [thunk_lambda.cc]      [Thunk<Lambda>] over a
                               [std::variant<Lambda, Result>]

    Callables are side-effecting: a user lambda acts on the state it
    captured by reference (the "world" [W]: a counter, an output stream)
    and either returns a [Result] or throws.  C++ objects that are mutated
    through a pointer ([this]) live in a store indexed by their address. *)

From Stdlib Require Import ZArith String.
From stdpp Require Import base option list relations.

(** ** Outcomes and the state-and-exception monad *)

(** What a call can do: return a value, leave by an exception, or end the
    program through [std::terminate] (an exception reaching the boundary
    of a [noexcept] function). *)
Inductive outcome (E A : Type) : Type :=
| Ret (a : A)
| Throw (e : E)
| Terminate.
Arguments Ret {E A} a.
Arguments Throw {E A} e.
Arguments Terminate {E A}.

Definition M (S E A : Type) : Type := S -> S * outcome E A.

Definition ret {S E A} (a : A) : M S E A := fun s => (s, Ret a).

(** Sequencing of two statements: the second runs only if the first
    returned; the effects of the first persist in every case. *)
Definition bind {S E A B} (m : M S E A) (k : A -> M S E B) : M S E B :=
  fun s =>
    match m s with
    | (s', Ret a) => k a s'
    | (s', Throw e) => (s', Throw e)
    | (s', Terminate) => (s', Terminate)
    end.

Notation "x <- m ;; k" := (bind m (fun x => k))
  (at level 100, m at next level, right associativity).

Definition outcome_map {E A B} (f : A -> B) (o : outcome E A) : outcome E B :=
  match o with
  | Ret a => Ret (f a)
  | Throw e => Throw e
  | Terminate => Terminate
  end.

(** A conversion that may itself throw, applied to what was observed. *)
Definition outcome_bind {E A B} (f : A -> outcome E B) (o : outcome E A)
  : outcome E B :=
  match o with
  | Ret a => f a
  | Throw e => Throw e
  | Terminate => Terminate
  end.

(** [static_cast<T>(e)]: conversions are taken as total functions. *)
Definition cast {S E A B} (static_cast : A -> B) (m : M S E A) : M S E B :=
  x <- m ;; ret (static_cast x).

(** A function declared [noexcept(b)]: with [b = true] an exception that
    reaches its boundary calls [std::terminate]. *)
Definition noexcept {S E A} (b : bool) (m : S -> option (S * outcome E A))
  : S -> option (S * outcome E A) :=
  fun s =>
    match m s with
    | Some (s', Throw e) => Some (s', if b then Terminate else Throw e)
    | r => r
    end.

Definition addr := nat.

(** ** [lazy.cc] and [lazy_functionless.cc]: [Lazy] *)

Module Lazy.

(** [operator+] of [Lazy] builds [(lhs.operator Lhs()) + (rhs.operator Rhs())]:
    one expression whose two operands C++ leaves unsequenced with respect
    to each other; the implementation evaluates one of them first. *)
Inductive operand_order := LeftFirst | RightFirst.

Section Lazy.
Context {W E Result : Type}.
Variable add : Result -> Result -> Result.
Variable order : operand_order.

(** The callables a [Lazy] can hold ([std::function<Result()>] in
    [lazy.cc], the template parameter [Lambda] in
    [lazy_functionless.cc]): a lambda of the caller, or the closure
    [[=]{ return (lhs.operator Lhs()) + (rhs.operator Rhs()); }] of
    [operator+], which holds copies of its two operands. *)
Inductive fn : Type :=
| UserLambda (body : W -> W * outcome E Result)
| PlusLambda (lhs rhs : Lazy)
with Lazy : Type :=
| Build_Lazy (d_lambda : fn).

Definition d_lambda (l : Lazy) : fn := let 'Build_Lazy f := l in f.

(** [constexpr Lazy(... lambda) : d_lambda(lambda) {}] *)
Definition Lazy_ctor (lambda : fn) : Lazy := Build_Lazy lambda.

(** [make_lazy(F lambda) { return Lazy<...>{lambda}; }], also what the
    [LAZY(arg)] and [lazy { ... }] macros expand to. *)
Definition make_lazy (lambda : fn) : Lazy := Lazy_ctor lambda.

(** [d_lambda()] and [operator Result() const { return d_lambda(); }] *)
Fixpoint call (f : fn) : M W E Result :=
  match f with
  | UserLambda body => body
  | PlusLambda lhs rhs =>
      match order with
      | LeftFirst =>
          l <- operator_Result lhs ;;
          r <- operator_Result rhs ;;
          ret (add l r)
      | RightFirst =>
          r <- operator_Result rhs ;;
          l <- operator_Result lhs ;;
          ret (add l r)
      end
  end
with operator_Result (l : Lazy) : M W E Result :=
  match l with
  | Build_Lazy f => call f
  end.

(** [lazy.cc]: [operator T() const { return static_cast<T>(d_lambda()); }] *)
Definition operator_T {T} (static_cast : Result -> T) (l : Lazy) : M W E T :=
  cast static_cast (call (d_lambda l)).

(** [lazy_functionless.cc]:
    [return static_cast<T>(static_cast<Result>(d_lambda()));] *)
Definition operator_T_functionless {T} (static_cast : Result -> T) (l : Lazy)
  : M W E T :=
  cast static_cast (cast (fun r : Result => r) (call (d_lambda l))).

(** [operator+(Lazy<Lhs> const &lhs, Lazy<Rhs> const &rhs)]: the closure
    captures both operands by copy. *)
Definition operator_plus (lhs rhs : Lazy) : Lazy :=
  make_lazy (PlusLambda lhs rhs).

(** [n] observations of the same [Lazy], one after the other. *)
Fixpoint observe_n (n : nat) (l : Lazy) (w : W) : W * list (outcome E Result) :=
  match n with
  | O => (w, [])
  | S k =>
      let '(w1, o) := operator_Result l w in
      let '(w2, os) := observe_n k l w1 in
      (w2, o :: os)
  end.
End Lazy.

End Lazy.

(** ** [thunk.cc] (and the same class in [lazy_functionless.cc]): [Thunk<Result>] *)

Module Thunk.

Section Thunk.
Context {W E Result : Type}.
Variable add : Result -> Result -> Result.

(** The callables a [std::function<Result()>] of this program can hold:
    - a lambda of the caller;
    - the closure the constructor builds,
      [[=, this]{ Result res = lambda(); d_lambda = [=]{ return res; }; return res; }],
      which holds a copy of [lambda] and the POINTER [this];
    - the trivial closure [[=]{ return res; }];
    - the closure of [operator+], which holds copies of both operands.
    A [Thunk] is its one field, [d_lambda]. *)
Inductive fn : Type :=
| UserLambda (body : W -> W * outcome E Result)
| CtorLambda (lambda : fn) (this : addr)
| ResLambda (res : Result)
| PlusLambda (lhs rhs : Thunk)
with Thunk : Type :=
| Build_Thunk (d_lambda : fn).

Definition d_lambda (t : Thunk) : fn := let 'Build_Thunk f := t in f.

(** The program state: what the user lambdas act on, and the [Thunk]
    objects that were constructed, by address.  Objects are never
    destroyed (as the locals of [main] until it returns). *)
Record state : Type := { world : W; heap : list Thunk }.

(** [this->d_lambda = f] *)
Definition assign_d_lambda (this : addr) (f : fn) : M state E unit :=
  fun st =>
    ({| world := world st; heap := <[this := Build_Thunk f]> (heap st) |},
     Ret tt).

Definition run_user (body : W -> W * outcome E Result) : M state E Result :=
  fun st =>
    let '(w, o) := body (world st) in
    ({| world := w; heap := heap st |}, o).

(** [d_lambda()]; [operator Result() const { return d_lambda(); }].
    A captured [Thunk] keeps the [this] its closure was built with:
    the defaulted copy constructor copies the closure as it is. *)
Fixpoint call (f : fn) : M state E Result :=
  match f with
  | UserLambda body => run_user body
  | CtorLambda lambda this =>
      res <- call lambda ;;
      _ <- assign_d_lambda this (ResLambda res) ;;
      ret res
  | ResLambda res => ret res
  | PlusLambda lhs rhs =>
      tmp_lhs <- operator_Result lhs ;;
      tmp_rhs <- operator_Result rhs ;;
      ret (add tmp_lhs tmp_rhs)
  end
with operator_Result (t : Thunk) : M state E Result :=
  match t with
  | Build_Thunk f => call f
  end.

(** [operator T() const { return static_cast<T>(d_lambda()); }] *)
Definition operator_T {T} (static_cast : Result -> T) (t : Thunk)
  : M state E T :=
  cast static_cast (call (d_lambda t)).

(** A member function called on the object that lives at [a]. *)
Definition at_object {A} (a : addr) (method : Thunk -> M state E A)
  : state -> option (state * outcome E A) :=
  fun st => t ← heap st !! a; Some (method t st).

Definition observe (a : addr) : state -> option (state * outcome E Result) :=
  at_object a operator_Result.

Definition convert {T} (static_cast : Result -> T) (a : addr)
  : state -> option (state * outcome E T) :=
  at_object a (operator_T static_cast).

(** [Thunk(std::function<Result()> lambda)]: the new object stores the
    constructor's closure, whose [this] is the new object's address. *)
Definition Thunk_ctor (lambda : fn) (st : state) : state * addr :=
  let this := length (heap st) in
  ({| world := world st;
      heap := heap st ++ [Build_Thunk (CtorLambda lambda this)] |}, this).

(** [Thunk(const Thunk &) = default]: the new object gets a copy of
    [d_lambda], captured [this] included. *)
Definition Thunk_copy (other : addr) (st : state) : option (state * addr) :=
  t ← heap st !! other;
  Some ({| world := world st; heap := heap st ++ [t] |}, length (heap st)).

(** [make_thunk(F lambda) { return Thunk<...>{lambda}; }]: the result
    object is initialised in place.  [THUNK(arg)] and [thunk { ... }]
    expand to it. *)
Definition make_thunk (lambda : fn) (st : state) : state * addr :=
  Thunk_ctor lambda st.

(** [operator+(Thunk<Lhs> const &lhs, Thunk<Rhs> const &rhs)]:
    [make_thunk] of a closure that captured [lhs] and [rhs] by copy. *)
Definition operator_plus (lhs rhs : addr) (st : state) : option (state * addr) :=
  l ← heap st !! lhs;
  r ← heap st !! rhs;
  Some (make_thunk (PlusLambda l r) st).

(** [n] observations of the object at [a], one after the other, as
    long as the program runs: an exception is caught by the caller,
    [std::terminate] ends the run. *)
Fixpoint observe_n (n : nat) (a : addr) (st : state)
  : option (state * list (outcome E Result)) :=
  match n with
  | O => Some (st, [])
  | S k =>
      match observe a st with
      | None => None
      | Some (st1, Terminate) => Some (st1, [Terminate])
      | Some (st1, o) =>
          match observe_n k a st1 with
          | None => None
          | Some (st2, os) => Some (st2, o :: os)
          end
      end
  end.

(** The slot of the spec: [Pending] while [d_lambda] still holds the
    constructor's closure, [Computed v] once it holds [[=]{ return v; }]. *)
Definition Computed (a : addr) (v : Result) (st : state) : Prop :=
  heap st !! a = Some (Build_Thunk (ResLambda v)).

Definition Pending (a : addr) (lambda : fn) (this : addr) (st : state) : Prop :=
  heap st !! a = Some (Build_Thunk (CtorLambda lambda this)).

Definition init (w : W) : state := {| world := w; heap := [] |}.

(** Every captured [this] is the address of an object among the first
    [n].  As no object is destroyed, an assignment through [this] then
    lands on a live object. *)
Fixpoint fn_wf (n : nat) (f : fn) : Prop :=
  match f with
  | UserLambda _ => True
  | CtorLambda lambda this => fn_wf n lambda /\ this < n
  | ResLambda _ => True
  | PlusLambda lhs rhs => Thunk_wf n lhs /\ Thunk_wf n rhs
  end
with Thunk_wf (n : nat) (t : Thunk) : Prop :=
  match t with
  | Build_Thunk f => fn_wf n f
  end.

Definition heap_wf (st : state) : Prop :=
  forall a t, heap st !! a = Some t -> Thunk_wf (length (heap st)) t.
End Thunk.

End Thunk.

(** Induction over closures and the [Thunk]s they captured. *)
Scheme fn_mut := Induction for Thunk.fn Sort Prop
  with Thunk_mut := Induction for Thunk.Thunk Sort Prop.

(** ** [thunk_lambda.cc]: [Thunk<Lambda>] *)

Module ThunkVariant.

Section ThunkVariant.
Context {W E Result : Type}.

(** The template parameter: the caller's closure. *)
Definition Lambda : Type := W -> W * outcome E Result.

(** [std::variant<Lambda, Result> d_thunk] *)
Inductive variant : Type :=
| holds_Lambda (arg : Lambda)
| holds_Result (arg : Result).

Record Thunk : Type := { d_thunk : variant }.

Record state : Type := { world : W; heap : list Thunk }.

(** [arg()] *)
Definition invoke (arg : Lambda) : M state E Result :=
  fun st =>
    let '(w, o) := arg (world st) in
    ({| world := w; heap := heap st |}, o).

(** [d_thunk.template emplace<Result>(res)] *)
Definition emplace_Result (this : addr) (res : Result) : M state E unit :=
  fun st =>
    ({| world := world st;
        heap := <[this := {| d_thunk := holds_Result res |}]> (heap st) |},
     Ret tt).

(** The operand of the [noexcept] operator in the exception
    specifications of [visit] and [operator Result] is
    [std::declval<Lambda>()]: a call of [std::declval], which is
    declared [noexcept], and not a call of the [Lambda].  The operator
    yields [true] for every [Lambda]. *)
Definition noexcept_declval_Lambda : bool := true.

(** [constexpr Result visit() noexcept(noexcept(std::declval<Lambda>()))] *)
Definition visit (this : addr) : state -> option (state * outcome E Result) :=
  noexcept noexcept_declval_Lambda
    (fun st =>
       t ← heap st !! this;
       Some (match d_thunk t with
             | holds_Result arg => ret arg
             | holds_Lambda arg =>
                 res <- invoke arg ;;
                 _ <- emplace_Result this res ;;
                 ret res
             end st)).

(** [operator Result() const noexcept(noexcept(std::declval<Lambda>()))
      { return (const_cast<Thunk*>(this))->visit(); }] *)
Definition operator_Result (this : addr)
  : state -> option (state * outcome E Result) :=
  noexcept noexcept_declval_Lambda (visit this).

Definition observe := operator_Result.

(** [operator T() const noexcept(noexcept(static_cast<T>(operator Result())))
      { return static_cast<T>(operator Result()); }]
    [conversion] is the conversion from [Result] to [T], which may throw;
    [conv_noexcept] tells whether it is declared [noexcept].  The
    exception specification is that of the whole operand: [operator T] is
    [noexcept] when the conversion is, [operator Result] being so for
    every [Lambda]. *)
Definition operator_T_of {T} (conv_noexcept : bool)
    (conversion : Result -> outcome E T) (this : addr)
  : state -> option (state * outcome E T) :=
  noexcept (conv_noexcept && noexcept_declval_Lambda)
    (fun st =>
       '(st', o) ← operator_Result this st;
       Some (st', outcome_bind conversion o)).

(** [operator T] for a conversion that cannot fail. *)
Definition operator_T {T} (conv_noexcept : bool) (static_cast : Result -> T)
    (this : addr) : state -> option (state * outcome E T) :=
  operator_T_of conv_noexcept (fun r => Ret (static_cast r)) this.

(** [constexpr Thunk(Lambda const &lambda) noexcept : d_thunk{lambda} {}] *)
Definition Thunk_ctor (lambda : Lambda) (st : state) : state * addr :=
  ({| world := world st;
      heap := heap st ++ [{| d_thunk := holds_Lambda lambda |}] |},
   length (heap st)).

(** [Thunk(const Thunk&) = default] *)
Definition Thunk_copy (other : addr) (st : state) : option (state * addr) :=
  t ← heap st !! other;
  Some ({| world := world st; heap := heap st ++ [t] |}, length (heap st)).

(** [make_thunk(F lambda) { return Thunk<F>{lambda}; }] *)
Definition make_thunk (lambda : Lambda) (st : state) : state * addr :=
  Thunk_ctor lambda st.

Fixpoint observe_n (n : nat) (a : addr) (st : state)
  : option (state * list (outcome E Result)) :=
  match n with
  | O => Some (st, [])
  | S k =>
      match observe a st with
      | None => None
      | Some (st1, Terminate) => Some (st1, [Terminate])
      | Some (st1, o) =>
          match observe_n k a st1 with
          | None => None
          | Some (st2, os) => Some (st2, o :: os)
          end
      end
  end.

Definition Computed (a : addr) (v : Result) (st : state) : Prop :=
  heap st !! a = Some {| d_thunk := holds_Result v |}.

Definition Pending (a : addr) (c : Lambda) (st : state) : Prop :=
  heap st !! a = Some {| d_thunk := holds_Lambda c |}.

Definition init (w : W) : state := {| world := w; heap := [] |}.
End ThunkVariant.

End ThunkVariant.

(** * Scenarios and notions the statements use *)

(** The spec's running example: a computation whose side effect is
    [calls++] and whose result is [r]. *)
Definition counting {E Result} (r : Result) : nat -> nat * outcome E Result :=
  fun calls => (S calls, Ret r).

(** A computation that throws [e] on its first [K] calls and returns [r]
    from then on; the world counts its calls. *)
Definition fails_first {E Result} (K : nat) (e : E) (r : Result)
  : nat -> nat * outcome E Result :=
  fun calls => (S calls, if calls <? K then Throw e else Ret r).

(** The lambdas of [main] in [thunk.cc]; the world is what they print. *)
Definition fourtytwo : list string -> list string * outcome string Z :=
  fun out => (out ++ ["Evaluated 42! "%string], Ret 42%Z).

Definition sixtynine : list string -> list string * outcome string Z :=
  fun out => (out, Ret 69%Z).

(** [main] of [thunk.cc], lines 99 to 103:
    [auto sum = (fourtytwo + sixtynine);] and then
    [std::cout << ... << (fourtytwo + sixtynine) << ' ' << (fourtytwo + sixtynine) << ' ' << sum],
    each [<<] building its right operand and then observing it. *)
Definition main_sums : option (Thunk.state * list (outcome string Z)) :=
  let st := Thunk.init [] in
  let '(st, f) := Thunk.make_thunk (Thunk.UserLambda fourtytwo) st in
  let '(st, s) := Thunk.make_thunk (Thunk.UserLambda sixtynine) st in
  '(st, sum) ← Thunk.operator_plus f s st;
  '(st, tmp1) ← Thunk.operator_plus f s st;
  '(st, o1) ← Thunk.observe Z.add tmp1 st;
  '(st, tmp2) ← Thunk.operator_plus f s st;
  '(st, o2) ← Thunk.observe Z.add tmp2 st;
  '(st, o3) ← Thunk.observe Z.add sum st;
  Some (st, [o1; o2; o3]).

(** A combination whose left operand is a copy. *)
Definition sum_of_copy : option (Thunk.state * addr * outcome string Z) :=
  let st := Thunk.init [] in
  let '(st, f) := Thunk.make_thunk (Thunk.UserLambda fourtytwo) st in
  let '(st, s) := Thunk.make_thunk (Thunk.UserLambda sixtynine) st in
  '(st, c) ← Thunk.Thunk_copy f st;
  '(st, sum) ← Thunk.operator_plus c s st;
  '(st, o) ← Thunk.observe Z.add sum st;
  Some (st, c, o).

(** [n] runs of a computation, each on the world the previous one left. *)
Fixpoint run_n {W E Result} (n : nat) (body : W -> W * outcome E Result) (w : W)
  : W * list (outcome E Result) :=
  match n with
  | O => (w, [])
  | S k =>
      let '(w1, o) := body w in
      let '(w2, os) := run_n k body w1 in
      (w2, o :: os)
  end.

(** What a [noexcept] boundary makes of an outcome. *)
Definition terminate_on_throw {E A} (o : outcome E A) : outcome E A :=
  match o with
  | Throw _ => Terminate
  | _ => o
  end.

(** Observe, then convert the observed [Result]. *)
Definition then_convert {S E A B} (static_cast : A -> B) (r : S * outcome E A)
  : S * outcome E B :=
  (fst r, outcome_map static_cast (snd r)).

Section Orders.
Context {W E Result : Type}.
Variable add : Result -> Result -> Result.
Variables bl br : W -> W * outcome E Result.

(** Run [bl], then [br] on the world [bl] left, and add. *)
Definition left_then_right : W -> W * outcome E Result :=
  l <- bl ;; r <- br ;; ret (add l r).

(** Run [br], then [bl] on the world [br] left, and add. *)
Definition right_then_left : W -> W * outcome E Result :=
  r <- br ;; l <- bl ;; ret (add l r).
End Orders.

Definition log_left : list string -> list string * outcome string Z :=
  fun out => (out ++ ["left"%string], Ret 3%Z).

Definition log_right : list string -> list string * outcome string Z :=
  fun out => (out ++ ["right"%string], Ret 4%Z).

(** The operations of a program on its [Thunk<Lambda>] objects
    ([thunk_lambda.cc]). *)
Inductive vstep {W E Result : Type} : relation (@ThunkVariant.state W E Result) :=
| vstep_ctor lambda st :
    vstep st (fst (ThunkVariant.Thunk_ctor lambda st))
| vstep_copy a st st' b :
    ThunkVariant.Thunk_copy a st = Some (st', b) -> vstep st st'
| vstep_observe a st st' o :
    ThunkVariant.observe a st = Some (st', o) -> vstep st st'
| vstep_convert (T : Type) b (static_cast : Result -> T) a st st' o :
    ThunkVariant.operator_T b static_cast a st = Some (st', o) -> vstep st st'.

(** The operations of a program on its [Thunk] objects ([thunk.cc]). *)
Inductive step {W E Result : Type} (add : Result -> Result -> Result)
  : relation (@Thunk.state W E Result) :=
| step_ctor lambda st :
    step add st (fst (Thunk.Thunk_ctor lambda st))
| step_copy a st st' b :
    Thunk.Thunk_copy a st = Some (st', b) -> step add st st'
| step_observe a st st' o :
    Thunk.observe add a st = Some (st', o) -> step add st st'
| step_convert (T : Type) (static_cast : Result -> T) a st st' o :
    Thunk.convert add static_cast a st = Some (st', o) -> step add st st'
| step_plus x y st st' z :
    Thunk.operator_plus x y st = Some (st', z) -> step add st st'.

Definition is_Computed {W E Result : Type} (a : addr)
    (st : @Thunk.state W E Result) : Prop :=
  exists v, Thunk.Computed a v st.

(** An impure computation: [{ return ++calls; }]. *)
Definition ticking : nat -> nat * outcome string nat :=
  fun calls => (S calls, Ret (S calls)).

Definition ten : nat -> nat * outcome string nat :=
  fun calls => (calls, Ret 10).

(** [t] and [u] are built, then [s = t + u] while [t] is [Pending];
    then [t], [s] and [t] again are observed. *)
Definition observe_around_sum : option (Thunk.state * list (outcome string nat)) :=
  let st := Thunk.init 0 in
  let '(st, t) := Thunk.make_thunk (Thunk.UserLambda ticking) st in
  let '(st, u) := Thunk.make_thunk (Thunk.UserLambda ten) st in
  '(st, s) ← Thunk.operator_plus t u st;
  '(st, o1) ← Thunk.observe Nat.add t st;
  '(st, o2) ← Thunk.observe Nat.add s st;
  '(st, o3) ← Thunk.observe Nat.add t st;
  Some (st, [o1; o2; o3]).

(** What a caller sees of one observation: the world and the result. *)
Definition seen1 {W E Result A} (r : @Thunk.state W E Result * A) : W * A :=
  (Thunk.world (fst r), snd r).

Definition vseen1 {W E Result A} (r : @ThunkVariant.state W E Result * A) : W * A :=
  (ThunkVariant.world (fst r), snd r).

(** What a caller sees of a run: the world and the results. *)
Definition seen {W E Result} (r : @Thunk.state W E Result * list (outcome E Result))
  : W * list (outcome E Result) :=
  (Thunk.world (fst r), snd r).

Definition vseen {W E Result}
    (r : @ThunkVariant.state W E Result * list (outcome E Result))
  : W * list (outcome E Result) :=
  (ThunkVariant.world (fst r), snd r).

(** ** Stream insertion *)

Section Streams.
Context {W E Result : Type}.
Variable add : Result -> Result -> Result.
Variable order : Lazy.operand_order.

(** [out << r] for a [Result] [r]: what the insertion does to the stream,
    which is part of the world (in [main] the stream is [std::cout]). *)
Variable insert : Result -> W -> W.

(** [thunk.cc] (and [lazy_functionless.cc]):
    [operator<<(std::ostream &out, Thunk<Result> const &val)
       { return out << (val.operator Result()); }] *)
Definition Thunk_operator_shl (val : addr)
  : Thunk.state -> option (Thunk.state * outcome E unit) :=
  Thunk.at_object val
    (fun t =>
       r <- Thunk.operator_Result add t ;;
       (fun st =>
          ({| Thunk.world := insert r (Thunk.world st);
              Thunk.heap := Thunk.heap st |}, Ret tt))).

(** [out << val << ... << val], with [n] insertions of the same object:
    one expression, left when an insertion does not return. *)
Fixpoint Thunk_print_n (n : nat) (val : addr) (st : Thunk.state)
  : option (Thunk.state * outcome E unit) :=
  match n with
  | O => Some (st, Ret tt)
  | S k =>
      match Thunk_operator_shl val st with
      | Some (st1, Ret _) => Thunk_print_n k val st1
      | r => r
      end
  end.

(** [lazy.cc], [lazy_functionless.cc]:
    [operator<<(std::ostream &out, Lazy<Result> const &val)
       { return out << (val.operator Result()); }] *)
Definition Lazy_operator_shl (val : Lazy.Lazy) : M W E unit :=
  r <- Lazy.operator_Result add order val ;;
  (fun w => (insert r w, Ret tt)).

Fixpoint Lazy_print_n (n : nat) (val : Lazy.Lazy) : M W E unit :=
  match n with
  | O => ret tt
  | S k => _ <- Lazy_operator_shl val ;; Lazy_print_n k val
  end.
End Streams.

(** ** Notions for the further properties *)

(** The addresses a call of a closure can assign through: the [this] of
    every constructor closure in it. *)
Fixpoint targets {W E Result : Type} (f : @Thunk.fn W E Result) : list addr :=
  match f with
  | Thunk.UserLambda _ => []
  | Thunk.CtorLambda lambda this => targets lambda ++ [this]
  | Thunk.ResLambda _ => []
  | Thunk.PlusLambda lhs rhs => Thunk_targets lhs ++ Thunk_targets rhs
  end
with Thunk_targets {W E Result : Type} (t : @Thunk.Thunk W E Result) : list addr :=
  match t with
  | Thunk.Build_Thunk f => targets f
  end.

(** A [Lazy] expression over pure computations, and its value: a leaf
    returns [v] in every world and leaves the world alone. *)
Inductive pure_value {W E Result : Type} (add : Result -> Result -> Result)
  : @Lazy.Lazy W E Result -> Result -> Prop :=
| pure_leaf body v :
    (forall w, body w = (w, Ret v)) ->
    pure_value add (Lazy.make_lazy (Lazy.UserLambda body)) v
| pure_plus l r a b :
    pure_value add l a ->
    pure_value add r b ->
    pure_value add (Lazy.operator_plus l r) (add a b).

(** The world of a program that counts the runs of its computation and
    prints: the counter and what is on the stream. *)
Definition counting_out {E Result} (r : Result)
  : nat * list Result -> (nat * list Result) * outcome E Result :=
  fun '(calls, out) => ((S calls, out), Ret r).

Definition insert_out {Result} (r : Result) : nat * list Result -> nat * list Result :=
  fun '(calls, out) => (calls, out ++ [r]).

(** [n] times: run the computation, then insert its result into the
    stream; left as soon as a run does not return. *)
Fixpoint run_insert_n {W E Result} (n : nat) (body : W -> W * outcome E Result)
    (insert : Result -> W -> W) (w : W) : W * outcome E unit :=
  match n with
  | O => (w, Ret tt)
  | S k =>
      match body w with
      | (w1, Ret v) => run_insert_n k body insert (insert v w1)
      | (w1, Throw e) => (w1, Throw e)
      | (w1, Terminate) => (w1, Terminate)
      end
  end.

(** A computation that reads the stream: it returns the number of items
    on it ([{ return out.size(); }]). *)
Definition items_so_far {E} : list nat -> list nat * outcome E nat :=
  fun out => (out, Ret (length out)).

(** * Facts about the embedding *)

(** Opening a member call on the object at an address. *)
Ltac open_observe := unfold Thunk.observe, Thunk.at_object.

Ltac open_vobserve :=
  unfold ThunkVariant.observe, ThunkVariant.operator_Result,
    ThunkVariant.visit, noexcept.

Lemma bind_Ret {S E A B} (m : M S E A) (k : A -> M S E B) s s' a :
  m s = (s', Ret a) -> bind m k s = k a s'.
Proof. unfold bind. intros ->. reflexivity. Qed.

Lemma bind_Throw {S E A B} (m : M S E A) (k : A -> M S E B) s s' e :
  m s = (s', Throw e) -> bind m k s = (s', Throw e).
Proof. unfold bind. intros ->. reflexivity. Qed.

Lemma cast_outcome_map {S E A B} (f : A -> B) (m : M S E A) s :
  cast f m s = (fst (m s), outcome_map f (snd (m s))).
Proof. unfold cast, bind, ret. destruct (m s) as [s' [a|e|]]; reflexivity. Qed.

Section ThunkFacts.
Context {W E Result : Type}.
Variable add : Result -> Result -> Result.

Local Abbreviation state := (@Thunk.state W E Result).
Local Abbreviation fn := (@Thunk.fn W E Result).
Local Abbreviation call := (Thunk.call add).
Local Abbreviation observe := (Thunk.observe add).
Local Abbreviation observe_n := (Thunk.observe_n add).
Local Abbreviation Obj := Thunk.Build_Thunk.

(** Calls never create or destroy objects. *)
Lemma call_heap_length (f : fn) :
  forall st : state,
    length (Thunk.heap (fst (call f st))) = length (Thunk.heap st).
Proof.
  induction f using fn_mut with
    (P0 := fun t => forall st : state,
               length (Thunk.heap (fst (Thunk.operator_Result add t st)))
               = length (Thunk.heap st));
    intros st; simpl.
  - unfold Thunk.run_user. destruct (body (Thunk.world st)); reflexivity.
  - unfold bind. specialize (IHf st).
    destruct (call f st) as [s1 [res|e|]]; simpl in *; try assumption.
    rewrite length_insert. assumption.
  - reflexivity.
  - unfold bind. specialize (IHf st).
    destruct (Thunk.operator_Result add lhs st) as [s1 [l|e|]];
      simpl in *; try assumption.
    specialize (IHf0 s1).
    destruct (Thunk.operator_Result add rhs s1) as [s2 [r|e|]];
      simpl in *; congruence.
  - apply IHf.
Qed.

(** A [Computed] object answers from its cache and touches nothing. *)
Lemma observe_Computed (a : addr) (v : Result) (st : state) :
  Thunk.Computed a v st -> observe a st = Some (st, Ret v).
Proof.
  unfold Thunk.Computed. open_observe. intros ->.
  reflexivity.
Qed.

Lemma observe_n_Computed (n : nat) (a : addr) (v : Result) (st : state) :
  Thunk.Computed a v st -> observe_n n a st = Some (st, replicate n (Ret v)).
Proof.
  intros H. induction n as [|n IH]; simpl; [reflexivity|].
  rewrite (observe_Computed _ _ _ H), IH. reflexivity.
Qed.

(** First observation of an object whose closure still points at the
    object itself, when the wrapped callable returns. *)
Lemma observe_own_Ret (a : addr) (lambda : fn) (st st1 : state) (v : Result) :
  Thunk.Pending a lambda a st ->
  call lambda st = (st1, Ret v) ->
  observe a st
  = Some ({| Thunk.world := Thunk.world st1;
             Thunk.heap := <[a := Obj (Thunk.ResLambda v)]> (Thunk.heap st1) |},
          Ret v).
Proof.
  unfold Thunk.Pending. open_observe. intros -> Hc.
  simpl. rewrite (bind_Ret _ _ _ _ _ Hc). reflexivity.
Qed.

(** ... and when it throws: nothing is assigned. *)
Lemma observe_Pending_Throw (a this : addr) (lambda : fn) (st st1 : state) e :
  Thunk.Pending a lambda this st ->
  call lambda st = (st1, Throw e) ->
  observe a st = Some (st1, Throw e).
Proof.
  unfold Thunk.Pending. open_observe. intros -> Hc.
  simpl. rewrite (bind_Throw _ _ _ _ _ Hc). reflexivity.
Qed.

Lemma observe_own_Computed (a : addr) (lambda : fn) (st st1 : state) (v : Result) :
  Thunk.Pending a lambda a st ->
  call lambda st = (st1, Ret v) ->
  exists st2, observe a st = Some (st2, Ret v)
              /\ Thunk.world st2 = Thunk.world st1
              /\ Thunk.Computed a v st2.
Proof.
  intros Hp Hc. eexists. split; [apply (observe_own_Ret _ _ _ _ _ Hp Hc)|].
  split; [reflexivity|]. unfold Thunk.Computed; simpl.
  apply list_lookup_insert_eq.
  pose proof (call_heap_length lambda st) as Hl. rewrite Hc in Hl.
  simpl in Hl. rewrite Hl. apply lookup_lt_Some in Hp. exact Hp.
Qed.

(** What [make_thunk] builds. *)
Lemma make_thunk_Pending (lambda : fn) (st : state) :
  let '(st1, a) := Thunk.make_thunk lambda st in
  Thunk.Pending a lambda a st1
  /\ Thunk.world st1 = Thunk.world st
  /\ a = length (Thunk.heap st)
  /\ forall b t, Thunk.heap st !! b = Some t -> Thunk.heap st1 !! b = Some t.
Proof.
  simpl. unfold Thunk.Pending; simpl. repeat split.
  - apply list_lookup_middle. reflexivity.
  - intros b t Hb. apply lookup_app_l_Some. exact Hb.
Qed.

(** An in-place object over a user lambda that returns: the first
    observation runs the lambda once and caches, the others read the
    cache. *)
Lemma observe_n_own_user (a : addr) (body : W -> W * outcome E Result)
    (st : state) (w' : W) (v : Result) (n : nat) :
  Thunk.Pending a (Thunk.UserLambda body) a st ->
  body (Thunk.world st) = (w', Ret v) ->
  let st' :=
    {| Thunk.world := w';
       Thunk.heap := <[a := Obj (Thunk.ResLambda v)]> (Thunk.heap st) |} in
  observe a st = Some (st', Ret v)
  /\ Thunk.Computed a v st'
  /\ observe_n (S n) a st = Some (st', replicate (S n) (Ret v)).
Proof.
  intros Hp Hbody st'.
  assert (Hcall : call (Thunk.UserLambda body) st
                  = ({| Thunk.world := w'; Thunk.heap := Thunk.heap st |}, Ret v)).
  { simpl. unfold Thunk.run_user. rewrite Hbody. reflexivity. }
  assert (Hc : Thunk.Computed a v st').
  { unfold Thunk.Computed; simpl. apply list_lookup_insert_eq.
    apply lookup_lt_Some in Hp. exact Hp. }
  pose proof (observe_own_Ret _ _ _ _ _ Hp Hcall) as Ho; simpl in Ho.
  repeat split; try assumption.
  simpl. rewrite Ho. fold st'. rewrite (observe_n_Computed n _ _ _ Hc).
  reflexivity.
Qed.
End ThunkFacts.

Section ThunkVariantFacts.
Context {W E Result : Type}.

Local Abbreviation vstate := (@ThunkVariant.state W E Result).
Local Abbreviation vobserve := (@ThunkVariant.observe W E Result).
Local Abbreviation vobserve_n := (@ThunkVariant.observe_n W E Result).
Local Abbreviation Cached v := {| ThunkVariant.d_thunk := ThunkVariant.holds_Result v |}.

Lemma vobserve_Computed (a : addr) (v : Result) (st : vstate) :
  ThunkVariant.Computed a v st -> vobserve a st = Some (st, Ret v).
Proof.
  unfold ThunkVariant.Computed. open_vobserve.
  intros ->. reflexivity.
Qed.

Lemma vobserve_n_Computed (n : nat) (a : addr) (v : Result) (st : vstate) :
  ThunkVariant.Computed a v st -> vobserve_n n a st = Some (st, replicate n (Ret v)).
Proof.
  intros H. induction n as [|n IH]; simpl; [reflexivity|].
  rewrite (vobserve_Computed _ _ _ H), IH. reflexivity.
Qed.

Lemma vobserve_Pending_Ret (a : addr) c (st : vstate) w' (v : Result) :
  ThunkVariant.Pending a c st ->
  c (ThunkVariant.world st) = (w', Ret v) ->
  vobserve a st
  = Some ({| ThunkVariant.world := w';
             ThunkVariant.heap := <[a := Cached v]> (ThunkVariant.heap st) |},
          Ret v).
Proof.
  unfold ThunkVariant.Pending. open_vobserve.
  intros -> Hc. simpl.
  unfold bind, ThunkVariant.invoke. rewrite Hc. reflexivity.
Qed.

(** A throwing [Lambda] meets the [noexcept] boundary of [visit]. *)
Lemma vobserve_Pending_Throw (a : addr) c (st : vstate) w' e :
  ThunkVariant.Pending a c st ->
  c (ThunkVariant.world st) = (w', Throw e) ->
  vobserve a st
  = Some ({| ThunkVariant.world := w'; ThunkVariant.heap := ThunkVariant.heap st |},
          Terminate).
Proof.
  unfold ThunkVariant.Pending. open_vobserve.
  intros -> Hc. simpl.
  unfold bind, ThunkVariant.invoke. rewrite Hc. reflexivity.
Qed.

(** [visit] writes to the object it is called on and to no other. *)
Lemma vobserve_frame (a b : addr) (st st' : vstate) o :
  vobserve a st = Some (st', o) -> a <> b ->
  ThunkVariant.heap st' !! b = ThunkVariant.heap st !! b.
Proof.
  open_vobserve.
  destruct (ThunkVariant.heap st !! a) as [[[c|v]]|] eqn:Ha; simpl;
    [| |discriminate].
  - unfold bind, ThunkVariant.invoke.
    destruct (c (ThunkVariant.world st)) as [w' [v|e|]]; simpl;
      intros [= <- <-] Hne; simpl; try reflexivity.
    apply list_lookup_insert_ne. exact Hne.
  - intros [= <- <-] _. reflexivity.
Qed.

(** Once [Computed], always [Computed], with the same value, whichever
    object is observed next. *)
Lemma vobserve_keeps_Computed (a b : addr) (v : Result) (st st' : vstate) o :
  vobserve b st = Some (st', o) ->
  ThunkVariant.Computed a v st -> ThunkVariant.Computed a v st'.
Proof.
  intros Hobs Ha. destruct (decide (b = a)) as [->|Hne].
  - rewrite (vobserve_Computed _ _ _ Ha) in Hobs.
    injection Hobs as <- <-. exact Ha.
  - unfold ThunkVariant.Computed.
    rewrite (vobserve_frame _ _ _ _ _ Hobs Hne). exact Ha.
Qed.

Lemma vmake_thunk_Pending c (st : vstate) :
  let '(st1, a) := ThunkVariant.make_thunk c st in
  ThunkVariant.Pending a c st1
  /\ ThunkVariant.world st1 = ThunkVariant.world st
  /\ a = length (ThunkVariant.heap st)
  /\ forall b t, ThunkVariant.heap st !! b = Some t ->
                 ThunkVariant.heap st1 !! b = Some t.
Proof.
  simpl. unfold ThunkVariant.Pending; simpl. repeat split.
  - apply list_lookup_middle. reflexivity.
  - intros b t Hb. apply lookup_app_l_Some. exact Hb.
Qed.
Lemma vobserve_n_Pending_Ret (a : addr) c (st : vstate) w' (v : Result) (n : nat) :
  ThunkVariant.Pending a c st ->
  c (ThunkVariant.world st) = (w', Ret v) ->
  let st' :=
    {| ThunkVariant.world := w';
       ThunkVariant.heap := <[a := Cached v]> (ThunkVariant.heap st) |} in
  vobserve a st = Some (st', Ret v)
  /\ ThunkVariant.Computed a v st'
  /\ vobserve_n (S n) a st = Some (st', replicate (S n) (Ret v)).
Proof.
  intros Hp Hbody st'.
  assert (Hc : ThunkVariant.Computed a v st').
  { unfold ThunkVariant.Computed; simpl. apply list_lookup_insert_eq.
    apply lookup_lt_Some in Hp. exact Hp. }
  pose proof (vobserve_Pending_Ret _ _ _ _ _ Hp Hbody) as Ho.
  repeat split; try assumption.
  simpl. rewrite Ho. fold st'. rewrite (vobserve_n_Computed n _ _ _ Hc).
  reflexivity.
Qed.
End ThunkVariantFacts.

(** ** Captured [this] pointers stay valid *)

Section WellFormed.
Context {W E Result : Type}.
Variable add : Result -> Result -> Result.

Local Abbreviation state := (@Thunk.state W E Result).
Local Abbreviation fn := (@Thunk.fn W E Result).

Lemma fn_wf_mono (f : fn) :
  forall n m, n <= m -> Thunk.fn_wf n f -> Thunk.fn_wf m f.
Proof.
  induction f using fn_mut with
    (P0 := fun t => forall n m, n <= m -> Thunk.Thunk_wf n t -> Thunk.Thunk_wf m t);
    intros n m Hnm; simpl; try tauto.
  - intros [H1 H2]. split; [apply (IHf n m Hnm H1) | lia].
  - intros [H1 H2]. split; [apply (IHf n m Hnm H1) | apply (IHf0 n m Hnm H2)].
  - apply IHf. exact Hnm.
Qed.

Lemma heap_wf_app (st : state) (t : Thunk.Thunk) :
  Thunk.heap_wf st ->
  Thunk.Thunk_wf (S (length (Thunk.heap st))) t ->
  Thunk.heap_wf {| Thunk.world := Thunk.world st; Thunk.heap := Thunk.heap st ++ [t] |}.
Proof.
  intros Hwf Ht a u; simpl. rewrite length_app; simpl.
  rewrite Nat.add_1_r. intros Hu.
  apply lookup_app_Some in Hu as [Hu | [_ Hu]].
  - destruct u as [g]. simpl.
    apply (fn_wf_mono g (length (Thunk.heap st))); [lia|].
    apply (Hwf a _ Hu).
  - apply list_lookup_singleton_Some in Hu as [_ <-]. exact Ht.
Qed.

(** A call keeps the heap well formed: what it assigns is a trivial
    closure, and it assigns where a captured [this] points. *)
Lemma call_heap_wf (f : fn) :
  forall st : state,
    Thunk.heap_wf st ->
    Thunk.heap_wf (fst (Thunk.call add f st)).
Proof.
  induction f using fn_mut with
    (P0 := fun t => forall st : state,
               Thunk.heap_wf st ->
               Thunk.heap_wf (fst (Thunk.operator_Result add t st)));
    intros st Hwf; simpl.
  - unfold Thunk.run_user. destruct (body (Thunk.world st)); exact Hwf.
  - unfold bind. specialize (IHf st Hwf).
    destruct (Thunk.call add f st) as [s1 [res|e|]]; simpl in *; try exact IHf.
    intros a t; simpl. rewrite length_insert. intros Ht.
    apply list_lookup_insert_Some in Ht as [(-> & <- & _) | (_ & Ht)].
    + exact I.
    + apply (IHf a t Ht).
  - exact Hwf.
  - unfold bind. specialize (IHf st Hwf).
    destruct (Thunk.operator_Result add lhs st) as [s1 [l|e|]];
      simpl in *; try exact IHf.
    specialize (IHf0 s1 IHf).
    destruct (Thunk.operator_Result add rhs s1) as [s2 [r|e|]];
      simpl in *; exact IHf0.
  - apply IHf. exact Hwf.
Qed.

(** Every operation of the library keeps the heap well formed, from the
    empty heap on; a user lambda captures no [Thunk]. *)
Lemma operations_keep_heap_wf (st : state) :
  Thunk.heap_wf st ->
  (forall body, Thunk.heap_wf (fst (Thunk.make_thunk (Thunk.UserLambda body) st)))
  /\ (forall a st' b, Thunk.Thunk_copy a st = Some (st', b) -> Thunk.heap_wf st')
  /\ (forall x y st' z, Thunk.operator_plus x y st = Some (st', z) -> Thunk.heap_wf st')
  /\ (forall a st' o, Thunk.observe add a st = Some (st', o) -> Thunk.heap_wf st').
Proof.
  intros Hwf. repeat split.
  - intros body. apply heap_wf_app; [exact Hwf | simpl; split; [exact I | lia]].
  - intros a st' b. unfold Thunk.Thunk_copy.
    destruct (Thunk.heap st !! a) as [[g]|] eqn:Ha; [|discriminate].
    intros [= <- _]. apply heap_wf_app; [exact Hwf|]. simpl.
    apply (fn_wf_mono g (length (Thunk.heap st))); [lia | apply (Hwf a _ Ha)].
  - intros x y st' z. unfold Thunk.operator_plus.
    destruct (Thunk.heap st !! x) as [[gx]|] eqn:Hx; [|discriminate].
    destruct (Thunk.heap st !! y) as [[gy]|] eqn:Hy; [|discriminate].
    intros [= <- _]. apply heap_wf_app; [exact Hwf|]. simpl.
    repeat split; try lia.
    + apply (fn_wf_mono gx (length (Thunk.heap st))); [lia | apply (Hwf x _ Hx)].
    + apply (fn_wf_mono gy (length (Thunk.heap st))); [lia | apply (Hwf y _ Hy)].
  - intros a st' o. open_observe.
    destruct (Thunk.heap st !! a) as [[g]|] eqn:Ha; [|discriminate].
    simpl. intros [= Hc].
    pose proof (call_heap_wf g st Hwf) as H. rewrite Hc in H. exact H.
Qed.

Lemma init_heap_wf (w : W) : Thunk.heap_wf (Thunk.init (E:=E) (Result:=Result) w).
Proof. intros a t Ha. discriminate Ha. Qed.
End WellFormed.

(** * The specification, property by property *)

(** ** Memoization of a single instance *)

(** C1. A [Thunk] that was constructed in place (its closure's [this] is
    its own address; [thunk.cc]), respectively a [Thunk<Lambda>] in the
    [Lambda] alternative ([thunk_lambda.cc]), wraps [body], whose run in
    the current world returns [v] and leaves the world [w'].  Observing it
    [N >= 1] times in a row returns [v] every time; the very first
    observation already leaves the final state, in which the world is
    [w'] (the effect of one run of [body]) and the slot caches [v]; the
    remaining observations change nothing. *)
Theorem C1_single_evaluation {W E Result : Type}
    (add : Result -> Result -> Result)
    (body : W -> W * outcome E Result) (w' : W) (v : Result) (N : nat)
    (st : Thunk.state) (a : addr)
    (stV : ThunkVariant.state) (aV : addr) :
  0 < N ->
  body (Thunk.world st) = (w', Ret v) ->
  Thunk.Pending a (Thunk.UserLambda body) a st ->
  ThunkVariant.world stV = Thunk.world st ->
  ThunkVariant.Pending aV body stV ->
  let st' :=
    {| Thunk.world := w';
       Thunk.heap := <[a := Thunk.Build_Thunk (Thunk.ResLambda v)]> (Thunk.heap st) |} in
  let stV' :=
    {| ThunkVariant.world := w';
       ThunkVariant.heap :=
         <[aV := {| ThunkVariant.d_thunk := ThunkVariant.holds_Result v |}]>
           (ThunkVariant.heap stV) |} in
  (Thunk.observe add a st = Some (st', Ret v)
   /\ Thunk.Computed a v st'
   /\ Thunk.observe_n add N a st = Some (st', replicate N (Ret v)))
  /\ (ThunkVariant.observe aV stV = Some (stV', Ret v)
      /\ ThunkVariant.Computed aV v stV'
      /\ ThunkVariant.observe_n N aV stV = Some (stV', replicate N (Ret v))).
Proof.
  intros HN Hbody Hp Hw HpV st' stV'.
  destruct N as [|n]; [inversion HN|].
  split.
  - apply (observe_n_own_user add a body st w' v n Hp Hbody).
  - rewrite <- Hw in Hbody.
    apply (vobserve_n_Pending_Ret aV body stV w' v n HpV Hbody).
Qed.

(** The scenario of the spec: [m = Memoized(() => { calls++; return 42; })],
    observed three times from [calls = 0]: [calls = 1] at the end. *)
Lemma C1_single_evaluation_witness :
  let st := fst (Thunk.make_thunk (Thunk.UserLambda (counting (E:=string) 42%Z))
                   (Thunk.init 0)) in
  let stV := fst (ThunkVariant.make_thunk (counting (E:=string) 42%Z)
                    (ThunkVariant.init 0)) in
  (Thunk.observe_n Z.add 3 0 st
   = Some ({| Thunk.world := 1;
              Thunk.heap := [Thunk.Build_Thunk (Thunk.ResLambda 42%Z)] |},
           [Ret 42%Z; Ret 42%Z; Ret 42%Z]))
  /\ (ThunkVariant.observe_n 3 0 stV
      = Some ({| ThunkVariant.world := 1;
                 ThunkVariant.heap :=
                   [{| ThunkVariant.d_thunk := ThunkVariant.holds_Result 42%Z |}] |},
              [Ret 42%Z; Ret 42%Z; Ret 42%Z])).
Proof.
  intros st stV.
  destruct (C1_single_evaluation Z.add (counting (E:=string) 42%Z) 1 42%Z 3
              st 0 stV 0) as [[_ [_ H1]] [_ [_ H2]]].
  - lia.
  - reflexivity.
  - reflexivity.
  - reflexivity.
  - reflexivity.
  - split; [exact H1 | exact H2].
Defined.

(** ** Failure of the wrapped computation *)

Section ThunkRetry.
Context {W E Result : Type}.
Variable add : Result -> Result -> Result.

(** [thunk.cc]: a throwing computation leaves through the constructor's
    closure before the assignment to [d_lambda]; the caller gets the
    exception and every object is as it was. *)
Lemma Thunk_failure_leaves_Pending (a this : addr)
    (body : W -> W * outcome E Result) (st : Thunk.state) w' e :
  Thunk.Pending a (Thunk.UserLambda body) this st ->
  body (Thunk.world st) = (w', Throw e) ->
  Thunk.observe add a st
  = Some ({| Thunk.world := w'; Thunk.heap := Thunk.heap st |}, Throw e).
Proof.
  intros Hp Hb. apply (observe_Pending_Throw add _ _ _ _ _ _ Hp).
  simpl. unfold Thunk.run_user. rewrite Hb. reflexivity.
Qed.
End ThunkRetry.

(** [thunk.cc]: retry on failure.  With [j] failing calls still ahead,
    [j] observations throw, the next one returns [r] and caches it, and
    [m] more return [r] from the cache: the computation has run [K + 1]
    times in all. *)
Lemma Thunk_retry_from {E Result : Type} (add : Result -> Result -> Result)
    (K : nat) (e : E) (r : Result) (a : addr) (m j : nat) :
  forall st : Thunk.state,
    Thunk.world st + j = K ->
    Thunk.Pending a (Thunk.UserLambda (fails_first K e r)) a st ->
    Thunk.observe_n add (j + S m) a st
    = Some ({| Thunk.world := S K;
               Thunk.heap := <[a := Thunk.Build_Thunk (Thunk.ResLambda r)]> (Thunk.heap st) |},
            replicate j (Throw e) ++ replicate (S m) (Ret r)).
Proof.
  induction j as [|j IH]; intros st Hw Hp.
  - assert (Hb : fails_first K e r (Thunk.world st) = (S K, Ret r)).
    { unfold fails_first. replace (Thunk.world st) with K by lia.
      rewrite Nat.ltb_irrefl. reflexivity. }
    apply (observe_n_own_user add a _ st (S K) r m Hp Hb).
  - assert (Hb : fails_first K e r (Thunk.world st)
                 = (S (Thunk.world st), Throw e)).
    { unfold fails_first.
      destruct (Nat.ltb_spec (Thunk.world st) K); [reflexivity | lia]. }
    change (S j + S m) with (S (j + S m)).
    cbn [Thunk.observe_n].
    rewrite (Thunk_failure_leaves_Pending add _ _ _ _ _ _ Hp Hb).
    rewrite IH; [reflexivity | simpl; lia | exact Hp].
Qed.

(** C2. Specified: a failing computation makes [observe] propagate the
    failure and leaves the slot [Pending], so that a later [observe]
    retries.  [thunk.cc] does so ([Thunk_retry_from]).  In
    [thunk_lambda.cc] the exception meets the [noexcept] boundary of
    [visit]: for a computation that throws on its first call and would
    return 7 on its second, the first observation ends the program, no
    failure reaches the caller and no second observation takes place;
    [thunk.cc] on the same input throws, then returns 7. *)
Theorem C2_variant_failure_terminates :
  let c := fails_first 1 "unavailable"%string 7%Z in
  let stV := fst (ThunkVariant.make_thunk c (ThunkVariant.init 0)) in
  let st := fst (Thunk.make_thunk (Thunk.UserLambda c) (Thunk.init 0)) in
  ThunkVariant.observe 0 stV
  = Some ({| ThunkVariant.world := 1; ThunkVariant.heap := ThunkVariant.heap stV |},
          Terminate)
  /\ ThunkVariant.observe_n 2 0 stV
     = Some ({| ThunkVariant.world := 1; ThunkVariant.heap := ThunkVariant.heap stV |},
             [Terminate])
  /\ Thunk.observe_n Z.add 2 0 st
     = Some ({| Thunk.world := 2;
                Thunk.heap := [Thunk.Build_Thunk (Thunk.ResLambda 7%Z)] |},
             [Throw "unavailable"%string; Ret 7%Z]).
Proof. repeat split. Qed.

(** ** Copies *)

Section ThunkVariantCopies.
Context {W E Result : Type}.

Local Abbreviation vstate := (@ThunkVariant.state W E Result).

(** [thunk_lambda.cc]: the copy of a [Pending] object is a second
    [Pending] object over the same computation; the original is as it
    was. *)
Lemma vcopy_Pending (a : addr) c (st : vstate) :
  ThunkVariant.Pending a c st ->
  let b := length (ThunkVariant.heap st) in
  let st1 := {| ThunkVariant.world := ThunkVariant.world st;
                ThunkVariant.heap :=
                  ThunkVariant.heap st
                  ++ [{| ThunkVariant.d_thunk := ThunkVariant.holds_Lambda c |}] |} in
  ThunkVariant.Thunk_copy a st = Some (st1, b)
  /\ a <> b
  /\ ThunkVariant.Pending a c st1
  /\ ThunkVariant.Pending b c st1.
Proof.
  unfold ThunkVariant.Pending, ThunkVariant.Thunk_copy. intros Ha; simpl.
  rewrite Ha; simpl. pose proof (lookup_lt_Some _ _ _ Ha) as Hlt.
  repeat split.
  - lia.
  - apply lookup_app_l_Some. exact Ha.
  - apply list_lookup_middle. reflexivity.
Qed.

(** [thunk_lambda.cc]: two distinct [Pending] objects over the same
    computation (an object and its copy) memoize independently.
    Observing [b] runs the computation and caches in [b] alone, [a] stays
    [Pending]; observing [a] then runs the computation a second time and
    caches in [a]; after that neither runs it again. *)
Lemma vcopies_independent (a b : addr) c (st : vstate) w1 w2 (v1 v2 : Result)
    (n m : nat) :
  a <> b ->
  ThunkVariant.Pending a c st ->
  ThunkVariant.Pending b c st ->
  c (ThunkVariant.world st) = (w1, Ret v1) ->
  c w1 = (w2, Ret v2) ->
  exists st1 st2,
    ThunkVariant.observe b st = Some (st1, Ret v1)
    /\ ThunkVariant.world st1 = w1
    /\ ThunkVariant.Computed b v1 st1
    /\ ThunkVariant.Pending a c st1
    /\ ThunkVariant.observe a st1 = Some (st2, Ret v2)
    /\ ThunkVariant.world st2 = w2
    /\ ThunkVariant.Computed a v2 st2
    /\ ThunkVariant.Computed b v1 st2
    /\ ThunkVariant.observe_n n a st2 = Some (st2, replicate n (Ret v2))
    /\ ThunkVariant.observe_n m b st2 = Some (st2, replicate m (Ret v1)).
Proof.
  intros Hne Ha Hb Hc1 Hc2.
  destruct (vobserve_n_Pending_Ret b c st w1 v1 0 Hb Hc1) as (Ho1 & HC1 & _).
  set (st1 := {| ThunkVariant.world := w1;
                 ThunkVariant.heap :=
                   <[b := {| ThunkVariant.d_thunk := ThunkVariant.holds_Result v1 |}]>
                     (ThunkVariant.heap st) |}) in *.
  assert (Ha1 : ThunkVariant.Pending a c st1).
  { unfold ThunkVariant.Pending.
    rewrite (vobserve_frame _ _ _ _ _ Ho1); [exact Ha | congruence]. }
  destruct (vobserve_n_Pending_Ret a c st1 w2 v2 0 Ha1 Hc2) as (Ho2 & HC2 & _).
  set (st2 := {| ThunkVariant.world := w2;
                 ThunkVariant.heap :=
                   <[a := {| ThunkVariant.d_thunk := ThunkVariant.holds_Result v2 |}]>
                     (ThunkVariant.heap st1) |}) in *.
  pose proof (vobserve_keeps_Computed b a v1 st1 st2 _ Ho2 HC1) as HC1'.
  exists st1, st2. repeat split; try assumption.
  - apply vobserve_n_Computed. exact HC2.
  - apply vobserve_n_Computed. exact HC1'.
Qed.

(** [thunk_lambda.cc]: the copy of a [Computed] object is [Computed];
    neither original nor copy runs anything when observed. *)
Lemma vcopy_Computed (a : addr) (v : Result) (st : vstate) (n m : nat) :
  ThunkVariant.Computed a v st ->
  exists st1 b,
    ThunkVariant.Thunk_copy a st = Some (st1, b)
    /\ ThunkVariant.world st1 = ThunkVariant.world st
    /\ ThunkVariant.observe_n n a st1 = Some (st1, replicate n (Ret v))
    /\ ThunkVariant.observe_n m b st1 = Some (st1, replicate m (Ret v)).
Proof.
  unfold ThunkVariant.Computed, ThunkVariant.Thunk_copy. intros Ha.
  rewrite Ha; simpl. eexists _, _. split; [reflexivity|].
  split; [reflexivity|]. split.
  - apply vobserve_n_Computed. unfold ThunkVariant.Computed; simpl.
    apply lookup_app_l_Some. exact Ha.
  - apply vobserve_n_Computed. unfold ThunkVariant.Computed; simpl.
    apply list_lookup_middle. reflexivity.
Qed.
End ThunkVariantCopies.

(** C3. Specified: a copy of a [Pending] value memoizes on its own and
    observing it leaves the original alone.  [thunk_lambda.cc] does so
    ([vcopies_independent], [vcopy_Computed]).  In [thunk.cc] the copied
    closure still holds the [this] of the object it was copied from:
    with [t] over [{ calls++; return 42; }] at address 0 and its copy at
    address 1, observing the copy twice runs the computation twice
    ([calls = 2]), the copy is [Pending] afterwards as before, and the
    never observed original has become [Computed]. *)
Theorem C3_thunk_copy_shares_this :
  let body := counting (E:=string) 42%Z in
  let pending := Thunk.Build_Thunk (Thunk.CtorLambda (Thunk.UserLambda body) 0) in
  let cached := Thunk.Build_Thunk (Thunk.ResLambda 42%Z) in
  Thunk.make_thunk (Thunk.UserLambda body) (Thunk.init 0)
  = ({| Thunk.world := 0; Thunk.heap := [pending] |}, 0)
  /\ Thunk.Thunk_copy 0 {| Thunk.world := 0; Thunk.heap := [pending] |}
     = Some ({| Thunk.world := 0; Thunk.heap := [pending; pending] |}, 1)
  /\ Thunk.observe_n Z.add 2 1 {| Thunk.world := 0; Thunk.heap := [pending; pending] |}
     = Some ({| Thunk.world := 2; Thunk.heap := [cached; pending] |},
             [Ret 42%Z; Ret 42%Z]).
Proof. repeat split. Qed.

(** ** The combination operator *)

Section ThunkPlus.
Context {W E Result : Type}.
Variable add : Result -> Result -> Result.

Local Abbreviation state := (@Thunk.state W E Result).
Local Abbreviation Obj := Thunk.Build_Thunk.

(** [thunk.cc]: [operator+] copies its operands into a closure and
    allocates the result; the world and every existing object are as
    before. *)
Lemma Thunk_operator_plus_constructs (x y : addr) tx ty (st : state) :
  Thunk.heap st !! x = Some tx ->
  Thunk.heap st !! y = Some ty ->
  let z := length (Thunk.heap st) in
  Thunk.operator_plus x y st
  = Some ({| Thunk.world := Thunk.world st;
             Thunk.heap :=
               Thunk.heap st ++ [Obj (Thunk.CtorLambda (Thunk.PlusLambda tx ty) z)] |},
          z).
Proof.
  intros Hx Hy z. unfold Thunk.operator_plus. rewrite Hx, Hy. reflexivity.
Qed.

(** [thunk.cc]: one combination of two in-place [Pending] operands over
    user lambdas.  Building it runs nothing; its first observation runs
    the left computation on the current world, the right one on the
    world the left one leaves, returns the sum, and leaves the
    combination and both operands [Computed]. *)
Lemma Thunk_plus_of_own_operands (x y : addr)
    (bl br : W -> W * outcome E Result) (st : state)
    (w1 w2 : W) (vl vr : Result) :
  x <> y ->
  Thunk.Pending x (Thunk.UserLambda bl) x st ->
  Thunk.Pending y (Thunk.UserLambda br) y st ->
  bl (Thunk.world st) = (w1, Ret vl) ->
  br w1 = (w2, Ret vr) ->
  exists st1 z st2,
    Thunk.operator_plus x y st = Some (st1, z)
    /\ Thunk.world st1 = Thunk.world st
    /\ Thunk.Pending x (Thunk.UserLambda bl) x st1
    /\ Thunk.Pending y (Thunk.UserLambda br) y st1
    /\ Thunk.observe add z st1 = Some (st2, Ret (add vl vr))
    /\ Thunk.world st2 = w2
    /\ Thunk.Computed z (add vl vr) st2
    /\ Thunk.Computed x vl st2
    /\ Thunk.Computed y vr st2.
Proof.
  intros Hne Hx Hy Hl Hr.
  pose proof (lookup_lt_Some _ _ _ Hx) as Hxlt.
  pose proof (lookup_lt_Some _ _ _ Hy) as Hylt.
  eexists _, _, _.
  split; [apply (Thunk_operator_plus_constructs _ _ _ _ _ Hx Hy)|].
  split; [reflexivity|].
  split; [apply lookup_app_l_Some; exact Hx|].
  split; [apply lookup_app_l_Some; exact Hy|].
  split.
  { open_observe; simpl.
    rewrite list_lookup_middle by reflexivity. simpl.
    unfold bind at 1. unfold bind at 1. unfold bind at 1.
    simpl. unfold Thunk.run_user at 1. simpl. rewrite Hl. simpl.
    unfold bind at 1. unfold bind at 1.
    simpl. unfold Thunk.run_user at 1. simpl. rewrite Hr. simpl.
    reflexivity. }
  simpl. split; [reflexivity|].
  unfold Thunk.Computed; simpl.
  split; [|split].
  - apply list_lookup_insert_eq. rewrite !length_insert, length_app. simpl. lia.
  - rewrite list_lookup_insert_ne by lia.
    rewrite list_lookup_insert_ne by congruence.
    apply list_lookup_insert_eq. rewrite length_app. lia.
  - rewrite list_lookup_insert_ne by lia.
    apply list_lookup_insert_eq. rewrite length_insert, length_app. lia.
Qed.
End ThunkPlus.

(** C4. Specified: building a combination runs nothing, observing it
    adds the two observed results, and each operand is observed as the
    memoized value it is (it caches on the first combined observation
    and is not recomputed once cached).  Building runs nothing and the
    sum is right in [thunk.cc] too ([Thunk_plus_of_own_operands]), but the
    operands captured by the closure keep the [this] of the objects they
    were copied from.  In [main], [sum] is built while [fourtytwo] is
    [Pending]; by the time [sum] is observed [fourtytwo] is [Computed],
    yet its computation runs again: "Evaluated 42! " is printed twice.
    And an operand that is itself a copy is still [Pending] after the
    first combined observation. *)
Theorem C4_thunk_plus_recomputes_operand :
  let cached v := Thunk.Build_Thunk (Thunk.ResLambda v) in
  main_sums
  = Some ({| Thunk.world := ["Evaluated 42! "; "Evaluated 42! "]%string;
             Thunk.heap := [cached 42; cached 69; cached 111; cached 111; cached 111]%Z |},
          [Ret 111; Ret 111; Ret 111]%Z)
  /\ exists st, sum_of_copy = Some (st, 2, Ret 111%Z)
                /\ Thunk.Pending 2 (Thunk.UserLambda fourtytwo) 0 st
                /\ Thunk.Computed 0 42%Z st.
Proof. split; [reflexivity|]. eexists. repeat split. Qed.

(** ** [Lazy] *)

Lemma run_n_counting {E Result} (r : Result) (n calls : nat) :
  run_n n (counting (E:=E) r) calls = (calls + n, replicate n (Ret r)).
Proof.
  revert calls. induction n as [|n IH]; intros calls; simpl.
  - f_equal. lia.
  - rewrite IH. f_equal. lia.
Qed.

Section LazyFacts.
Context {W E Result : Type}.
Variable add : Result -> Result -> Result.
Variable order : Lazy.operand_order.

Lemma Lazy_observe_n_run_n (n : nat) (l : Lazy.Lazy) (w : W) :
  Lazy.observe_n add order n l w
  = run_n (E:=E) n (Lazy.operator_Result add order l) w.
Proof.
  revert w. induction n as [|n IH]; intros w; simpl; [reflexivity|].
  destruct (Lazy.operator_Result add order l w) as [w1 o].
  rewrite IH. reflexivity.
Qed.
End LazyFacts.

(** C7. A [Lazy] over [body] has nothing but [body]: an observation in
    world [w] is [body w], whatever was observed before, and a conversion
    is the same followed by the cast; [N] observations in a row are [N]
    runs of [body], each on the world the previous run left.  With the
    side effect [calls++] the counter goes from [calls] to [calls + N]. *)
Theorem C7_lazy_recomputes_every_time {W E Result T : Type}
    (add : Result -> Result -> Result) (order : Lazy.operand_order)
    (body : W -> W * outcome E Result) (static_cast : Result -> T)
    (r : Result) (N calls : nat) :
  let l := Lazy.make_lazy (Lazy.UserLambda body) in
  (forall w, Lazy.operator_Result add order l w = body w)
  /\ (forall w, Lazy.operator_T add order static_cast l w
                = (fst (body w), outcome_map static_cast (snd (body w))))
  /\ (forall w, Lazy.observe_n add order N l w = run_n N body w)
  /\ Lazy.observe_n add order N (Lazy.make_lazy (Lazy.UserLambda (counting r))) calls
     = (calls + N, replicate N (Ret (E:=E) r)).
Proof.
  intros l. split; [reflexivity|]. split; [|split].
  - intros w. unfold Lazy.operator_T. rewrite cast_outcome_map. reflexivity.
  - intros w. apply Lazy_observe_n_run_n.
  - rewrite Lazy_observe_n_run_n. apply run_n_counting.
Qed.

(** ** Construction *)

(** C6. Constructing a wrapper stores the computation and runs nothing.
    A [Lazy] is a value built from the callable: its first observation in
    world [w] is [body w].  [Thunk(lambda)] and [make_thunk(lambda)], in
    [thunk.cc] and in [thunk_lambda.cc], return a state with the same
    world and the same objects plus one new [Pending] object, and the
    first observation of that object is the first run of [body], on the
    world from before the construction. *)
Theorem C6_no_evaluation_on_construction {W E Result : Type}
    (add : Result -> Result -> Result) (order : Lazy.operand_order)
    (body : W -> W * outcome E Result) :
  (forall w,
      Lazy.operator_Result add order (Lazy.Lazy_ctor (Lazy.UserLambda body)) w = body w
      /\ Lazy.operator_Result add order (Lazy.make_lazy (Lazy.UserLambda body)) w = body w)
  /\ (forall st : Thunk.state,
         Thunk.make_thunk (Thunk.UserLambda body) st
         = Thunk.Thunk_ctor (Thunk.UserLambda body) st
         /\ let '(st1, a) := Thunk.Thunk_ctor (Thunk.UserLambda body) st in
            Thunk.world st1 = Thunk.world st
            /\ Thunk.heap st1
               = Thunk.heap st
                 ++ [Thunk.Build_Thunk (Thunk.CtorLambda (Thunk.UserLambda body) a)]
            /\ a = length (Thunk.heap st)
            /\ seen1 <$> Thunk.observe add a st1 = Some (body (Thunk.world st)))
  /\ (forall st : ThunkVariant.state,
         ThunkVariant.make_thunk body st = ThunkVariant.Thunk_ctor body st
         /\ let '(st1, a) := ThunkVariant.Thunk_ctor body st in
            ThunkVariant.world st1 = ThunkVariant.world st
            /\ ThunkVariant.heap st1
               = ThunkVariant.heap st
                 ++ [{| ThunkVariant.d_thunk := ThunkVariant.holds_Lambda body |}]
            /\ a = length (ThunkVariant.heap st)
            /\ vseen1 <$> ThunkVariant.observe a st1
               = Some (fst (body (ThunkVariant.world st)),
                       terminate_on_throw (snd (body (ThunkVariant.world st))))).
Proof.
  split; [intros w; split; reflexivity|]. split.
  - intros st. split; [reflexivity|]. simpl.
    repeat split.
    open_observe. cbn [Thunk.heap].
    rewrite list_lookup_middle by reflexivity. simpl.
    unfold bind, Thunk.run_user, seen1; simpl.
    destruct (body (Thunk.world st)) as [w' [v|e|]]; reflexivity.
  - intros st. split; [reflexivity|]. simpl.
    repeat split.
    open_vobserve. cbn [ThunkVariant.heap].
    rewrite list_lookup_middle by reflexivity. simpl.
    unfold bind, ThunkVariant.invoke, vseen1; simpl.
    destruct (body (ThunkVariant.world st)) as [w' [v|e|]]; reflexivity.
Qed.

(** ** Conversions *)

Lemma then_convert_compose {S E A B C} (f : A -> B) (g : B -> C)
    (r : S * outcome E A) :
  then_convert (fun x => g (f x)) r = then_convert g (then_convert f r).
Proof. destruct r as [s [a|e|]]; reflexivity. Qed.

Lemma cast_then_convert {S E A B} (f : A -> B) (m : M S E A) s :
  cast f m s = then_convert f (m s).
Proof. apply cast_outcome_map. Qed.

Lemma Thunk_convert_observe {W E Result T} (add : Result -> Result -> Result)
    (static_cast : Result -> T) (a : addr) (st : @Thunk.state W E Result) :
  Thunk.convert add static_cast a st
  = then_convert static_cast <$> Thunk.observe add a st.
Proof.
  unfold Thunk.convert. open_observe.
  destruct (Thunk.heap st !! a) as [[f]|]; simpl; [|reflexivity].
  unfold Thunk.operator_T. rewrite cast_then_convert. reflexivity.
Qed.

Lemma ThunkVariant_convert_observe {W E Result T} (conv_noexcept : bool)
    (static_cast : Result -> T) (a : addr) (st : @ThunkVariant.state W E Result) :
  ThunkVariant.operator_T conv_noexcept static_cast a st
  = then_convert static_cast <$> ThunkVariant.observe a st.
Proof.
  unfold ThunkVariant.operator_T, ThunkVariant.operator_T_of,
    ThunkVariant.observe, ThunkVariant.operator_Result, noexcept.
  destruct (ThunkVariant.visit a st) as [[st' [v|e|]]|]; reflexivity.
Qed.

(** C5. Every conversion operator observes and then applies the
    conversion to the observed [Result].  A wrapper is built over [body],
    whose run in the current world returns [v] and leaves the world
    [w']; [rt] is the conversion from [Result] to a type [T].
    Converting the wrapper to [T] runs [body] as an observation does
    (once more for a [Lazy], once and cached for a [Thunk] of either
    file) and returns [rt v].  This holds for every target type, so
    also for a type [U] with its own conversion from [Result]; where
    that conversion goes through [T] ([ru r] is [tu (rt r)], as when a
    [U] is constructed from the [T] a [Result] converts to), the one
    conversion of the wrapper returns [tu (rt v)]: no conversion to [T]
    has to be written in between. *)
Theorem C5_transitive_conversion {W E Result T U : Type}
    (add : Result -> Result -> Result) (order : Lazy.operand_order)
    (rt : Result -> T) (tu : T -> U) (ru : Result -> U)
    (body : W -> W * outcome E Result) (w' : W) (v : Result)
    (st : Thunk.state) (a : addr)
    (stV : ThunkVariant.state) (aV : addr) (b : bool) :
  body (Thunk.world st) = (w', Ret v) ->
  Thunk.Pending a (Thunk.UserLambda body) a st ->
  ThunkVariant.world stV = Thunk.world st ->
  ThunkVariant.Pending aV body stV ->
  (forall r, ru r = tu (rt r)) ->
  let l := Lazy.make_lazy (Lazy.UserLambda body) in
  let st' :=
    {| Thunk.world := w';
       Thunk.heap := <[a := Thunk.Build_Thunk (Thunk.ResLambda v)]> (Thunk.heap st) |} in
  let stV' :=
    {| ThunkVariant.world := w';
       ThunkVariant.heap :=
         <[aV := {| ThunkVariant.d_thunk := ThunkVariant.holds_Result v |}]>
           (ThunkVariant.heap stV) |} in
  (Lazy.operator_T add order rt l (Thunk.world st) = (w', Ret (rt v))
   /\ Lazy.operator_T_functionless add order rt l (Thunk.world st) = (w', Ret (rt v))
   /\ Lazy.operator_T add order ru l (Thunk.world st) = (w', Ret (tu (rt v)))
   /\ Lazy.operator_T_functionless add order ru l (Thunk.world st)
      = (w', Ret (tu (rt v))))
  /\ (Thunk.convert add rt a st = Some (st', Ret (rt v))
      /\ Thunk.convert add ru a st = Some (st', Ret (tu (rt v))))
  /\ (ThunkVariant.operator_T b rt aV stV = Some (stV', Ret (rt v))
      /\ ThunkVariant.operator_T b ru aV stV = Some (stV', Ret (tu (rt v)))).
Proof.
  intros Hb Hp Hw HpV Hru l st' stV'.
  destruct (observe_n_own_user add a body st w' v 0 Hp Hb) as (Ho & _ & _).
  pose proof Hb as HbV. rewrite <- Hw in HbV.
  destruct (vobserve_n_Pending_Ret aV body stV w' v 0 HpV HbV) as (HoV & _ & _).
  fold st' in Ho. fold stV' in HoV.
  split; [|split].
  - unfold Lazy.operator_T, Lazy.operator_T_functionless. subst l. simpl.
    rewrite !cast_then_convert. rewrite Hb. unfold then_convert. simpl.
    rewrite Hru. repeat split.
  - rewrite !Thunk_convert_observe, Ho. unfold then_convert. simpl.
    rewrite Hru. split; reflexivity.
  - rewrite !ThunkVariant_convert_observe, HoV. unfold then_convert. simpl.
    rewrite Hru. split; reflexivity.
Qed.

(** A counted computation returning 42, converted to [nat] and, through
    [nat], to [bool]: each conversion of the [Lazy] runs it (the counter
    goes from 0 to 1), the conversion of a [Thunk] runs it and caches. *)
Lemma C5_transitive_conversion_witness :
  let body := counting (E:=string) 42%Z in
  let st := fst (Thunk.make_thunk (Thunk.UserLambda body) (Thunk.init 0)) in
  let stV := fst (ThunkVariant.make_thunk body (ThunkVariant.init 0)) in
  let ru := fun r => Nat.even (Z.to_nat r) in
  (Lazy.operator_T Z.add Lazy.LeftFirst Z.to_nat
     (Lazy.make_lazy (Lazy.UserLambda body)) 0 = (1, Ret 42)
   /\ Lazy.operator_T_functionless Z.add Lazy.LeftFirst ru
        (Lazy.make_lazy (Lazy.UserLambda body)) 0 = (1, Ret true))
  /\ Thunk.convert Z.add ru 0 st
     = Some ({| Thunk.world := 1;
                Thunk.heap := [Thunk.Build_Thunk (Thunk.ResLambda 42%Z)] |},
             Ret true)
  /\ ThunkVariant.operator_T false ru 0 stV
     = Some ({| ThunkVariant.world := 1;
                ThunkVariant.heap :=
                  [{| ThunkVariant.d_thunk := ThunkVariant.holds_Result 42%Z |}] |},
             Ret true).
Proof.
  intros body st stV ru.
  destruct (C5_transitive_conversion Z.add Lazy.LeftFirst Z.to_nat Nat.even ru
              body 1 42%Z st 0 stV 0 false)
    as [(H1 & _ & _ & H2) [[_ H3] [_ H4]]].
  - reflexivity.
  - reflexivity.
  - reflexivity.
  - reflexivity.
  - intros r. reflexivity.
  - split; [split; [exact H1 | exact H2] | split; [exact H3 | exact H4]].
Defined.

(** ** Order of the two observations of a combination *)

(** C8, as specified, for [Lazy]: whatever order the implementation picks
    for the operands of [+], the left operand is observed first.  Not so:
    where the right operand of [+] is evaluated first, a left computation
    that prints "left" and a right one that prints "right" print "right"
    and then "left". *)
Lemma C8_lazy_order_counterexample :
  ~ (forall order : Lazy.operand_order,
        Lazy.operator_Result Z.add order
          (Lazy.operator_plus (Lazy.make_lazy (Lazy.UserLambda log_left))
                              (Lazy.make_lazy (Lazy.UserLambda log_right))) []
        = left_then_right Z.add log_left log_right []).
Proof. intros H. specialize (H Lazy.RightFirst). discriminate H. Qed.

(** C8, amended.  [thunk.cc]: the closure of [operator+] observes its
    operands in two statements.  The first observation of a combination
    of the objects at [x] and [y] observes the captured left operand,
    then the captured right operand in the state the left one left (and
    not at all if the left one threw), adds, and caches the sum; for
    operands [Pending] over [bl] and [br] this runs [bl] on the current
    world and then [br] on the world [bl] left.  [lazy.cc]: both
    observations are operands of one [+]; a combination observes left
    then right, or right then left, as the implementation orders the
    operands, and returns the sum either way. *)
Theorem C8_operand_order {W E Result : Type} (add : Result -> Result -> Result)
    (x y : addr) (tx ty : Thunk.Thunk) (st : @Thunk.state W E Result) :
  Thunk.heap st !! x = Some tx ->
  Thunk.heap st !! y = Some ty ->
  (exists st1 z,
      Thunk.operator_plus x y st = Some (st1, z)
      /\ Thunk.observe add z st1
         = Some ((res <- left_then_right add (Thunk.operator_Result add tx)
                           (Thunk.operator_Result add ty) ;;
                  _ <- Thunk.assign_d_lambda z (Thunk.ResLambda res) ;;
                  ret res) st1)
      /\ forall bl br this_x this_y,
           tx = Thunk.Build_Thunk (Thunk.CtorLambda (Thunk.UserLambda bl) this_x) ->
           ty = Thunk.Build_Thunk (Thunk.CtorLambda (Thunk.UserLambda br) this_y) ->
           seen1 <$> Thunk.observe add z st1
           = Some (left_then_right add bl br (Thunk.world st)))
  /\ (forall (order : Lazy.operand_order) (l r : Lazy.Lazy) (w : W),
         Lazy.operator_Result (E:=E) add order (Lazy.operator_plus l r) w
         = match order with
           | Lazy.LeftFirst =>
               left_then_right add (Lazy.operator_Result add order l)
                 (Lazy.operator_Result add order r) w
           | Lazy.RightFirst =>
               right_then_left add (Lazy.operator_Result add order l)
                 (Lazy.operator_Result add order r) w
           end).
Proof.
  intros Hx Hy. split.
  - eexists _, _.
    split; [apply (Thunk_operator_plus_constructs _ _ _ _ _ Hx Hy)|].
    open_observe. cbn [Thunk.heap].
    rewrite list_lookup_middle by reflexivity.
    split; [reflexivity|].
    intros bl br this_x this_y -> ->. simpl.
    unfold left_then_right, bind, Thunk.run_user, ret, seen1; simpl.
    destruct (bl (Thunk.world st)) as [w1 [vl|e|]]; simpl; try reflexivity.
    destruct (br w1) as [w2 [vr|e|]]; reflexivity.
  - intros [] l r w; reflexivity.
Qed.

(** Operands that print "left" and "right": the [Thunk] combination
    prints left, right; the [Lazy] one, with the right operand of [+]
    evaluated first, prints right, left.  Both return 7. *)
Lemma C8_operand_order_witness :
  let tx := Thunk.Build_Thunk (Thunk.CtorLambda (Thunk.UserLambda log_left) 0) in
  let ty := Thunk.Build_Thunk (Thunk.CtorLambda (Thunk.UserLambda log_right) 1) in
  let st := {| Thunk.world := []; Thunk.heap := [tx; ty] |} in
  (exists st1 z,
      Thunk.operator_plus 0 1 st = Some (st1, z)
      /\ seen1 <$> Thunk.observe Z.add z st1
         = Some (["left"; "right"]%string, Ret 7%Z))
  /\ Lazy.operator_Result Z.add Lazy.RightFirst
       (Lazy.operator_plus (Lazy.make_lazy (Lazy.UserLambda log_left))
                           (Lazy.make_lazy (Lazy.UserLambda log_right))) []
     = (["right"; "left"]%string, Ret 7%Z).
Proof.
  intros tx ty st.
  destruct (C8_operand_order Z.add 0 1 tx ty st) as [(st1 & z & Hplus & _ & Hobs) Hlazy].
  - reflexivity.
  - reflexivity.
  - split.
    + exists st1, z. split; [exact Hplus|].
      exact (Hobs log_left log_right 0 1 eq_refl eq_refl).
    + exact (Hlazy Lazy.RightFirst
               (Lazy.make_lazy (Lazy.UserLambda log_left))
               (Lazy.make_lazy (Lazy.UserLambda log_right)) []).
Defined.

(** ** The slot once it is [Computed] *)

Section Monotone.
Context {W E Result : Type}.
Variable add : Result -> Result -> Result.

(** [thunk_lambda.cc]: a [Computed] slot keeps its value under every
    operation on every object. *)
Lemma vstep_keeps_Computed (a : addr) (v : Result)
    (st st' : @ThunkVariant.state W E Result) :
  vstep st st' -> ThunkVariant.Computed a v st -> ThunkVariant.Computed a v st'.
Proof.
  unfold ThunkVariant.Computed.
  intros [lambda s | b s s' c Hc | b s s' o Ho | T b sc x s s' o Ho] Ha.
  - simpl. apply lookup_app_l_Some. exact Ha.
  - unfold ThunkVariant.Thunk_copy in Hc.
    destruct (ThunkVariant.heap s !! b) as [t|]; [|discriminate].
    injection Hc as <- _. simpl. apply lookup_app_l_Some. exact Ha.
  - apply (vobserve_keeps_Computed _ _ _ _ _ _ Ho Ha).
  - rewrite ThunkVariant_convert_observe in Ho.
    destruct (ThunkVariant.observe x s) as [[s1 o1]|] eqn:Ho1; [|discriminate].
    injection Ho as <- _. apply (vobserve_keeps_Computed _ _ _ _ _ _ Ho1 Ha).
Qed.

Lemma ThunkVariant_Computed_forever (a : addr) (v : Result)
    (st st' : @ThunkVariant.state W E Result) :
  rtc vstep st st' ->
  ThunkVariant.Computed a v st ->
  ThunkVariant.Computed a v st'
  /\ ThunkVariant.observe a st' = Some (st', Ret v).
Proof.
  intros Hsteps Ha.
  assert (Ha' : ThunkVariant.Computed a v st').
  { induction Hsteps as [|s1 s2 s3 H12 _ IH]; [exact Ha|].
    apply IH. apply (vstep_keeps_Computed _ _ _ _ H12 Ha). }
  split; [exact Ha' | apply vobserve_Computed; exact Ha'].
Qed.

(** [thunk.cc]: a call assigns trivial closures only, so a [Computed]
    slot stays [Computed]; of its value nothing is said. *)
Lemma call_keeps_is_Computed (f : Thunk.fn) :
  forall (st : @Thunk.state W E Result) (a : addr),
    is_Computed a st -> is_Computed a (fst (Thunk.call add f st)).
Proof.
  induction f using fn_mut with
    (P0 := fun t => forall (st : @Thunk.state W E Result) (a : addr),
               is_Computed a st ->
               is_Computed a (fst (Thunk.operator_Result add t st)));
    intros st a Ha; simpl.
  - unfold Thunk.run_user. destruct (body (Thunk.world st)); exact Ha.
  - unfold bind. specialize (IHf st a Ha).
    destruct (Thunk.call add f st) as [s1 [res|e|]]; simpl in *;
      try exact IHf.
    destruct IHf as [v Hv]. unfold is_Computed, Thunk.Computed in *. simpl.
    destruct (decide (this = a)) as [->|Hne].
    + exists res. apply list_lookup_insert_eq.
      apply lookup_lt_Some in Hv. exact Hv.
    + exists v. rewrite list_lookup_insert_ne by exact Hne. exact Hv.
  - exact Ha.
  - unfold bind. specialize (IHf st a Ha).
    destruct (Thunk.operator_Result add lhs st) as [s1 [l|e|]];
      simpl in *; try exact IHf.
    specialize (IHf0 s1 a IHf).
    destruct (Thunk.operator_Result add rhs s1) as [s2 [r|e|]];
      simpl in *; exact IHf0.
  - apply IHf. exact Ha.
Qed.

Lemma observe_keeps_is_Computed (a b : addr) (st st' : @Thunk.state W E Result) o :
  Thunk.observe add b st = Some (st', o) -> is_Computed a st -> is_Computed a st'.
Proof.
  open_observe. intros Ho Ha.
  destruct (Thunk.heap st !! b) as [[f]|]; [|discriminate].
  simpl in Ho. injection Ho as Ho.
  pose proof (call_keeps_is_Computed f st a Ha) as H.
  rewrite Ho in H. exact H.
Qed.

Lemma step_keeps_is_Computed (a : addr) (st st' : @Thunk.state W E Result) :
  step add st st' -> is_Computed a st -> is_Computed a st'.
Proof.
  intros [lambda s | b s s' c Hc | b s s' o Ho | T sc x s s' o Ho
         | x y s s' z Hz] [v Ha]; unfold is_Computed, Thunk.Computed in *.
  - exists v. simpl. apply lookup_app_l_Some. exact Ha.
  - unfold Thunk.Thunk_copy in Hc.
    destruct (Thunk.heap s !! b) as [t|]; [|discriminate].
    injection Hc as <- _. exists v. simpl. apply lookup_app_l_Some. exact Ha.
  - apply (observe_keeps_is_Computed a b s s' o Ho). exists v. exact Ha.
  - rewrite Thunk_convert_observe in Ho.
    destruct (Thunk.observe add x s) as [[s1 o1]|] eqn:Ho1; [|discriminate].
    injection Ho as <- _.
    apply (observe_keeps_is_Computed a x s s1 o1 Ho1). exists v. exact Ha.
  - unfold Thunk.operator_plus in Hz.
    destruct (Thunk.heap s !! x) as [tx|]; [|discriminate].
    destruct (Thunk.heap s !! y) as [ty|]; [|discriminate].
    injection Hz as <- _. exists v. simpl. apply lookup_app_l_Some. exact Ha.
Qed.

Lemma Thunk_never_Pending_again (a : addr) (st st' : @Thunk.state W E Result) :
  rtc (step add) st st' -> is_Computed a st -> is_Computed a st'.
Proof.
  intros Hsteps Ha.
  induction Hsteps as [|s1 s2 s3 H12 _ IH]; [exact Ha|].
  apply IH. apply (step_keeps_is_Computed _ _ _ H12 Ha).
Qed.
End Monotone.

(** C9. Specified: once the slot holds [Computed v], no later operation
    changes the cached value and every later observation returns [v].
    [thunk_lambda.cc] does so ([ThunkVariant_Computed_forever]); in
    [thunk.cc] the slot stays [Computed] ([Thunk_never_Pending_again])
    but its value does not stay: closures copied from [t] while it was
    [Pending] assign to [t] whenever they run.  With [t] over
    [{ return ++calls; }] and a copy of it, [t] is observed (1, cached),
    then the copy (2, and [t] now caches 2), then [t] again: 2.  The same
    through a combination built while [t] was [Pending]: [t] gives 1,
    the sum 12, [t] gives 2. *)
Theorem C9_thunk_cached_value_overwritten :
  let pending := Thunk.Build_Thunk (Thunk.CtorLambda (Thunk.UserLambda ticking) 0) in
  let cached v := Thunk.Build_Thunk (Thunk.ResLambda (W:=nat) (E:=string) v) in
  let st a b := {| Thunk.world := a; Thunk.heap := b |} in
  Thunk.Thunk_copy 0 (fst (Thunk.make_thunk (Thunk.UserLambda ticking) (Thunk.init 0)))
  = Some (st 0 [pending; pending], 1)
  /\ Thunk.observe Nat.add 0 (st 0 [pending; pending])
     = Some (st 1 [cached 1; pending], Ret 1)
  /\ Thunk.observe Nat.add 1 (st 1 [cached 1; pending])
     = Some (st 2 [cached 2; pending], Ret 2)
  /\ Thunk.observe Nat.add 0 (st 2 [cached 2; pending])
     = Some (st 2 [cached 2; pending], Ret 2)
  /\ observe_around_sum
     = Some (st 2 [cached 2; cached 10; cached 12], [Ret 1; Ret 12; Ret 2]).
Proof. repeat split. Qed.

(** ** The two [Thunk]s side by side *)

(** As long as the first run of the computation does not throw, the two
    implementations show the same world and the same results for every
    number of observations of an in-place instance. *)
Lemma implementations_agree_unless_Throw {W E Result : Type}
    (add : Result -> Result -> Result)
    (body : W -> W * outcome E Result) (N : nat)
    (st : Thunk.state) (a : addr) (stV : ThunkVariant.state) (aV : addr) :
  (forall e, snd (body (Thunk.world st)) <> Throw e) ->
  Thunk.Pending a (Thunk.UserLambda body) a st ->
  ThunkVariant.world stV = Thunk.world st ->
  ThunkVariant.Pending aV body stV ->
  seen <$> Thunk.observe_n add N a st = vseen <$> ThunkVariant.observe_n N aV stV.
Proof.
  intros Hno Hp Hw HpV. destruct N as [|n]; [cbn; unfold seen, vseen; cbn; rewrite Hw; reflexivity|].
  destruct (body (Thunk.world st)) as [w' [v|e|]] eqn:Hb.
  - destruct (observe_n_own_user add a body st w' v n Hp Hb) as (_ & _ & ->).
    rewrite <- Hw in Hb.
    destruct (vobserve_n_Pending_Ret aV body stV w' v n HpV Hb) as (_ & _ & ->).
    reflexivity.
  - exfalso. apply (Hno e). reflexivity.
  - cbn [Thunk.observe_n ThunkVariant.observe_n].
    open_observe. open_vobserve.
    unfold Thunk.Pending in Hp. unfold ThunkVariant.Pending in HpV.
    rewrite Hp, HpV. simpl.
    unfold bind, Thunk.run_user, ThunkVariant.invoke. rewrite Hw, Hb.
    reflexivity.
Qed.

(** C10. Specified: on one uncopied instance the two implementations
    return the same results and run the computation equally often, also
    when it fails.  They agree as long as the first run does not throw
    ([implementations_agree_unless_Throw]).  For a computation that
    throws on its first call and returns 7 afterwards, three observations
    of the [std::function] [Thunk] throw once and return 7 twice, after
    two runs; the first observation of the variant [Thunk] ends the
    program at the [noexcept] boundary of [visit], after one run. *)
Theorem C10_implementations_differ_on_failure :
  let c := fails_first 1 "unavailable"%string 7%Z in
  seen <$> Thunk.observe_n Z.add 3 0
             (fst (Thunk.make_thunk (Thunk.UserLambda c) (Thunk.init 0)))
  = Some (2, [Throw "unavailable"%string; Ret 7%Z; Ret 7%Z])
  /\ vseen <$> ThunkVariant.observe_n 3 0
                 (fst (ThunkVariant.make_thunk c (ThunkVariant.init 0)))
     = Some (1, [Terminate]).
Proof. split; reflexivity. Qed.

(** * Further properties of the code *)

(** ** [thunk.cc]: one object *)

(** X1. [thunk.cc]: a [Thunk] built over a computation that throws [e] on
    its first [K] calls and returns [r] afterwards.  [K + 1 + m]
    observations: the first [K] throw [e], the next returns [r] and
    caches it, the remaining [m] return [r]; the computation has run
    [K + 1] times and every other object is as it was. *)
Theorem X1_thunk_retries_until_success {E Result : Type}
    (add : Result -> Result -> Result) (K m : nat) (e : E) (r : Result)
    (h : list Thunk.Thunk) :
  Thunk.observe_n add (K + S m) (length h)
    (fst (Thunk.make_thunk (Thunk.UserLambda (fails_first K e r))
            {| Thunk.world := 0; Thunk.heap := h |}))
  = Some ({| Thunk.world := S K;
             Thunk.heap := h ++ [Thunk.Build_Thunk (Thunk.ResLambda r)] |},
          replicate K (Throw e) ++ replicate (S m) (Ret r)).
Proof.
  simpl.
  rewrite (Thunk_retry_from add K e r (length h) m K); simpl.
  - rewrite insert_app_r_alt by lia. rewrite Nat.sub_diag. reflexivity.
  - reflexivity.
  - unfold Thunk.Pending; simpl. apply list_lookup_middle. reflexivity.
Qed.

(** X2. [thunk.cc]: the only closure ever assigned to [d_lambda] is the
    trivial one.  An object that is [Computed] stays [Computed] under
    every sequence of constructions, copies, observations, conversions
    and combinations, of this or of any other object, and observing it
    then returns the value it holds and changes nothing. *)
Theorem X2_thunk_stays_computed {W E Result : Type}
    (add : Result -> Result -> Result) (a : addr)
    (st st' : @Thunk.state W E Result) :
  rtc (step add) st st' ->
  is_Computed a st ->
  exists v', Thunk.Computed a v' st'
             /\ Thunk.observe add a st' = Some (st', Ret v').
Proof.
  intros Hsteps Ha.
  destruct (Thunk_never_Pending_again add a st st' Hsteps Ha) as [v' Hv'].
  exists v'. split; [exact Hv' | apply observe_Computed; exact Hv'].
Qed.

Lemma X2_thunk_stays_computed_witness :
  let cached v := Thunk.Build_Thunk (Thunk.ResLambda (W:=nat) (E:=string) v) in
  let pending := Thunk.Build_Thunk (Thunk.CtorLambda (Thunk.UserLambda ticking) 0) in
  exists v', Thunk.Computed 0 v' {| Thunk.world := 2; Thunk.heap := [cached 2; pending] |}
             /\ Thunk.observe Nat.add 0 {| Thunk.world := 2; Thunk.heap := [cached 2; pending] |}
                = Some ({| Thunk.world := 2; Thunk.heap := [cached 2; pending] |}, Ret v').
Proof.
  intros cached pending.
  apply (X2_thunk_stays_computed Nat.add 0
           {| Thunk.world := 1; Thunk.heap := [cached 1; pending] |}).
  - eapply rtc_l; [|apply rtc_refl].
    apply (step_observe Nat.add 1 _ _ (Ret 2)). reflexivity.
  - exists 1. reflexivity.
Defined.

Section Frame.
Context {W E Result : Type}.
Variable add : Result -> Result -> Result.

Lemma call_frame (f : Thunk.fn) :
  forall (st : @Thunk.state W E Result) (b : addr),
    b ∉ targets f ->
    Thunk.heap (fst (Thunk.call add f st)) !! b = Thunk.heap st !! b.
Proof.
  induction f using fn_mut with
    (P0 := fun t => forall (st : @Thunk.state W E Result) (b : addr),
               b ∉ Thunk_targets t ->
               Thunk.heap (fst (Thunk.operator_Result add t st)) !! b
               = Thunk.heap st !! b);
    intros st b Hb; simpl in *.
  - unfold Thunk.run_user. destruct (body (Thunk.world st)); reflexivity.
  - apply not_elem_of_app in Hb as [Hb1 Hb2].
    apply not_elem_of_cons in Hb2 as [Hb2 _].
    unfold bind. specialize (IHf st b Hb1).
    destruct (Thunk.call add f st) as [s1 [res|e|]]; simpl in *;
      try exact IHf.
    rewrite list_lookup_insert_ne by congruence. exact IHf.
  - reflexivity.
  - apply not_elem_of_app in Hb as [Hb1 Hb2].
    unfold bind. specialize (IHf st b Hb1).
    destruct (Thunk.operator_Result add lhs st) as [s1 [l|e|]];
      simpl in *; try exact IHf.
    specialize (IHf0 s1 b Hb2).
    destruct (Thunk.operator_Result add rhs s1) as [s2 [r|e|]];
      simpl in *; congruence.
  - apply IHf. exact Hb.
Qed.
End Frame.

(** X3. [thunk.cc]: an observation assigns through the [this] pointers
    captured in the closure it runs, and nowhere else.  Observing the
    object at [a] leaves every object whose address is not such a [this]
    as it was, and creates and destroys none. *)
Theorem X3_thunk_observe_frame {W E Result : Type}
    (add : Result -> Result -> Result) (a b : addr) (t : Thunk.Thunk)
    (st st' : @Thunk.state W E Result) (o : outcome E Result) :
  Thunk.heap st !! a = Some t ->
  Thunk.observe add a st = Some (st', o) ->
  b ∉ Thunk_targets t ->
  Thunk.heap st' !! b = Thunk.heap st !! b
  /\ length (Thunk.heap st') = length (Thunk.heap st).
Proof.
  intros Ha Ho Hb. unfold Thunk.observe, Thunk.at_object in Ho.
  rewrite Ha in Ho. simpl in Ho. injection Ho as Ho.
  destruct t as [f]. simpl in *. split.
  - pose proof (call_frame add f st b Hb) as H. rewrite Ho in H. exact H.
  - pose proof (call_heap_length add f st) as H. rewrite Ho in H. exact H.
Qed.

(** A copy of a [Pending] object is observed: the copy itself (address 1)
    is not among the targets and stays as it was. *)
Lemma X3_thunk_observe_frame_witness :
  let pending := Thunk.Build_Thunk (Thunk.CtorLambda (Thunk.UserLambda ticking) 0) in
  let cached v := Thunk.Build_Thunk (Thunk.ResLambda (W:=nat) (E:=string) v) in
  Thunk.heap {| Thunk.world := 1; Thunk.heap := [cached 1; pending] |} !! 1
  = Some pending
  /\ length [cached 1; pending] = 2.
Proof.
  intros pending cached.
  apply (X3_thunk_observe_frame Nat.add 1 1 pending
           {| Thunk.world := 0; Thunk.heap := [pending; pending] |}
           {| Thunk.world := 1; Thunk.heap := [cached 1; pending] |} (Ret 1)).
  - reflexivity.
  - reflexivity.
  - simpl. intros H. apply list_elem_of_singleton in H. discriminate H.
Defined.

(** ** [thunk.cc]: combinations *)

Section SumFacts.
Context {W E Result : Type}.
Variable add : Result -> Result -> Result.

Local Abbreviation state := (@Thunk.state W E Result).
Local Abbreviation Obj := Thunk.Build_Thunk.

(** Observing a captured operand that is [Pending] over a user lambda. *)
Lemma operand_Pending_Ret (body : W -> W * outcome E Result) (p : addr)
    (s : state) w1 v :
  body (Thunk.world s) = (w1, Ret v) ->
  Thunk.operator_Result add (Obj (Thunk.CtorLambda (Thunk.UserLambda body) p)) s
  = ({| Thunk.world := w1;
        Thunk.heap := <[p := Obj (Thunk.ResLambda v)]> (Thunk.heap s) |}, Ret v).
Proof.
  intros Hb. simpl. unfold bind, Thunk.run_user. rewrite Hb. reflexivity.
Qed.

Lemma operand_Pending_Throw (body : W -> W * outcome E Result) (p : addr)
    (s : state) w1 e :
  body (Thunk.world s) = (w1, Throw e) ->
  Thunk.operator_Result add (Obj (Thunk.CtorLambda (Thunk.UserLambda body) p)) s
  = ({| Thunk.world := w1; Thunk.heap := Thunk.heap s |}, Throw e).
Proof.
  intros Hb. simpl. unfold bind, Thunk.run_user. rewrite Hb. reflexivity.
Qed.

(** An observation whose wrapped callable does not return assigns
    nothing. *)
Lemma observe_Pending_no_Ret (a this : addr) (lambda : Thunk.fn) (st s2 : state)
    (o : outcome E Result) :
  Thunk.Pending a lambda this st ->
  Thunk.call add lambda st = (s2, o) ->
  (forall v, o <> Ret v) ->
  Thunk.observe add a st = Some (s2, o).
Proof.
  unfold Thunk.Pending. open_observe. intros -> Hc Ho.
  simpl. unfold bind at 1. rewrite Hc.
  destruct o as [v|e|]; [destruct (Ho v eq_refl) | reflexivity | reflexivity].
Qed.

(** The first observation of a fresh combination, as one computation. *)
Lemma observe_fresh_sum (x y : addr) tx ty (st : state) :
  Thunk.heap st !! x = Some tx ->
  Thunk.heap st !! y = Some ty ->
  let z := length (Thunk.heap st) in
  let st1 :=
    {| Thunk.world := Thunk.world st;
       Thunk.heap :=
         Thunk.heap st ++ [Obj (Thunk.CtorLambda (Thunk.PlusLambda tx ty) z)] |} in
  Thunk.operator_plus x y st = Some (st1, z)
  /\ Thunk.observe add z st1
     = Some ((res <- (tmp_lhs <- Thunk.operator_Result add tx ;;
                      tmp_rhs <- Thunk.operator_Result add ty ;;
                      ret (add tmp_lhs tmp_rhs)) ;;
              _ <- Thunk.assign_d_lambda z (Thunk.ResLambda res) ;;
              ret res) st1).
Proof.
  intros Hx Hy z st1.
  split; [apply (Thunk_operator_plus_constructs _ _ _ _ _ Hx Hy)|].
  open_observe. subst st1. cbn [Thunk.heap].
  rewrite list_lookup_middle by reflexivity. reflexivity.
Qed.
End SumFacts.

(** X4. [thunk.cc]: [x + x] for an in-place [Pending] [x].  The closure
    of [operator+] holds two copies of [x], both [Pending]: the first
    observation of the sum runs the computation of [x] twice, adds the
    two results, and leaves in [x] the result of the second run. *)
Theorem X4_thunk_sum_with_itself {W E Result : Type}
    (add : Result -> Result -> Result) (x : addr)
    (body : W -> W * outcome E Result) (st : Thunk.state)
    (w1 w2 : W) (v1 v2 : Result) :
  Thunk.Pending x (Thunk.UserLambda body) x st ->
  body (Thunk.world st) = (w1, Ret v1) ->
  body w1 = (w2, Ret v2) ->
  exists st1 z st2,
    Thunk.operator_plus x x st = Some (st1, z)
    /\ Thunk.observe add z st1 = Some (st2, Ret (add v1 v2))
    /\ Thunk.world st2 = w2
    /\ Thunk.Computed x v2 st2
    /\ Thunk.Computed z (add v1 v2) st2.
Proof.
  intros Hx H1 H2.
  pose proof (lookup_lt_Some _ _ _ Hx) as Hlt.
  destruct (observe_fresh_sum add x x _ _ st Hx Hx) as [Hplus Hobs].
  eexists _, _, _. split; [exact Hplus|]. split.
  { rewrite Hobs.
    erewrite bind_Ret; [reflexivity|].
    erewrite bind_Ret; [|apply operand_Pending_Ret; exact H1].
    erewrite bind_Ret; [reflexivity|].
    apply operand_Pending_Ret. exact H2. }
  simpl. split; [reflexivity|]. unfold Thunk.Computed; simpl. split.
  - rewrite list_lookup_insert_ne by lia.
    apply list_lookup_insert_eq. rewrite length_insert, length_app. lia.
  - apply list_lookup_insert_eq. rewrite !length_insert, length_app. simpl. lia.
Qed.

Lemma X4_thunk_sum_with_itself_witness :
  exists st1 z st2,
    Thunk.operator_plus 0 0
      (fst (Thunk.make_thunk (Thunk.UserLambda ticking) (Thunk.init 0)))
    = Some (st1, z)
    /\ Thunk.observe Nat.add z st1 = Some (st2, Ret (1 + 2))
    /\ Thunk.world st2 = 2
    /\ Thunk.Computed 0 2 st2
    /\ Thunk.Computed z (1 + 2) st2.
Proof.
  apply (X4_thunk_sum_with_itself Nat.add 0 ticking
           (fst (Thunk.make_thunk (Thunk.UserLambda ticking) (Thunk.init 0)))
           1 2 1 2); reflexivity.
Defined.

(** X5. [thunk.cc]: a combination of two [Computed] operands captures
    their trivial closures.  Building and observing it runs no
    computation: the world is untouched, the result is the sum of the two
    cached values, and the only object that changes is the combination
    itself, which caches the sum. *)
Theorem X5_thunk_sum_of_computed {W E Result : Type}
    (add : Result -> Result -> Result) (x y : addr) (vx vy : Result)
    (st : @Thunk.state W E Result) :
  Thunk.Computed x vx st ->
  Thunk.Computed y vy st ->
  exists st1,
    Thunk.operator_plus x y st = Some (st1, length (Thunk.heap st))
    /\ Thunk.observe add (length (Thunk.heap st)) st1
       = Some ({| Thunk.world := Thunk.world st;
                  Thunk.heap :=
                    Thunk.heap st ++ [Thunk.Build_Thunk (Thunk.ResLambda (add vx vy))] |},
               Ret (add vx vy)).
Proof.
  intros Hx Hy.
  destruct (observe_fresh_sum add x y _ _ st Hx Hy) as [Hplus Hobs].
  eexists. split; [exact Hplus|]. rewrite Hobs.
  unfold bind, ret, Thunk.assign_d_lambda; simpl.
  rewrite insert_app_r_alt by lia. rewrite Nat.sub_diag. reflexivity.
Qed.

Lemma X5_thunk_sum_of_computed_witness :
  let cached v := Thunk.Build_Thunk (Thunk.ResLambda (W:=nat) (E:=string) v) in
  exists st1,
    Thunk.operator_plus 0 1 {| Thunk.world := 5; Thunk.heap := [cached 3; cached 4] |}
    = Some (st1, 2)
    /\ Thunk.observe Nat.add 2 st1
       = Some ({| Thunk.world := 5; Thunk.heap := [cached 3; cached 4; cached 7] |},
               Ret 7).
Proof.
  intros cached.
  apply (X5_thunk_sum_of_computed Nat.add 0 1 3 4
           {| Thunk.world := 5; Thunk.heap := [cached 3; cached 4] |});
    reflexivity.
Defined.

(** X6. [thunk.cc]: exceptions inside a combination.  If the left
    computation throws, the right one is not run, nothing is assigned
    and the exception leaves the observation of the sum.  If the left one
    returns and the right one throws, the left result has been assigned
    through the left operand's [this] by then, the sum itself stays
    [Pending], and the exception leaves. *)
Theorem X6_thunk_sum_exceptions {W E Result : Type}
    (add : Result -> Result -> Result) (x y this_x this_y : addr)
    (bl br : W -> W * outcome E Result) (st : Thunk.state) :
  Thunk.Pending x (Thunk.UserLambda bl) this_x st ->
  Thunk.Pending y (Thunk.UserLambda br) this_y st ->
  exists st1 z,
    Thunk.operator_plus x y st = Some (st1, z)
    /\ (forall w1 e,
           bl (Thunk.world st) = (w1, Throw e) ->
           Thunk.observe add z st1
           = Some ({| Thunk.world := w1; Thunk.heap := Thunk.heap st1 |}, Throw e))
    /\ (forall w1 vl w2 e,
           bl (Thunk.world st) = (w1, Ret vl) ->
           br w1 = (w2, Throw e) ->
           Thunk.observe add z st1
           = Some ({| Thunk.world := w2;
                      Thunk.heap :=
                        <[this_x := Thunk.Build_Thunk (Thunk.ResLambda vl)]>
                          (Thunk.heap st1) |}, Throw e)).
Proof.
  intros Hx Hy.
  destruct (observe_fresh_sum add x y _ _ st Hx Hy) as [Hplus Hobs].
  eexists _, _. split; [exact Hplus|]. split.
  - intros w1 e Hl. rewrite Hobs.
    erewrite bind_Throw; [reflexivity|].
    erewrite bind_Throw; [reflexivity|].
    apply operand_Pending_Throw. exact Hl.
  - intros w1 vl w2 e Hl Hr. rewrite Hobs.
    erewrite bind_Throw; [reflexivity|].
    erewrite bind_Ret; [|apply operand_Pending_Ret; exact Hl].
    erewrite bind_Throw; [reflexivity|].
    apply operand_Pending_Throw. exact Hr.
Qed.

(** X7. [thunk.cc]: a combination is a [Thunk] of its own.  Whatever its
    operands are, once the first observation of a fresh combination has
    returned [v], every further observation returns [v] and changes
    nothing: no operand is observed again. *)
Theorem X7_thunk_sum_is_memoized {W E Result : Type}
    (add : Result -> Result -> Result) (x y z : addr)
    (st st1 st2 : @Thunk.state W E Result) (v : Result) (N : nat) :
  Thunk.operator_plus x y st = Some (st1, z) ->
  Thunk.observe add z st1 = Some (st2, Ret v) ->
  Thunk.Computed z v st2
  /\ Thunk.observe_n add N z st2 = Some (st2, replicate N (Ret v)).
Proof.
  intros Hplus Hobs.
  unfold Thunk.operator_plus in Hplus.
  destruct (Thunk.heap st !! x) as [tx|] eqn:Hx; [|discriminate].
  destruct (Thunk.heap st !! y) as [ty|] eqn:Hy; [|discriminate].
  simpl in Hplus. injection Hplus as <- <-.
  assert (Hp : Thunk.Pending (length (Thunk.heap st))
                 (Thunk.PlusLambda tx ty) (length (Thunk.heap st))
                 {| Thunk.world := Thunk.world st;
                    Thunk.heap :=
                      Thunk.heap st
                      ++ [Thunk.Build_Thunk
                            (Thunk.CtorLambda (Thunk.PlusLambda tx ty)
                               (length (Thunk.heap st)))] |}).
  { unfold Thunk.Pending; simpl. apply list_lookup_middle. reflexivity. }
  match type of Hp with Thunk.Pending _ ?l _ ?s =>
    destruct (Thunk.call add l s) as [s2 [v'|e|]] eqn:Hc
  end.
  - destruct (observe_own_Computed add _ _ _ _ _ Hp Hc) as (s3 & Ho & _ & HC).
    rewrite Ho in Hobs. injection Hobs as <- <-.
    split; [exact HC | apply observe_n_Computed; exact HC].
  - rewrite (observe_Pending_no_Ret add _ _ _ _ _ _ Hp Hc) in Hobs;
      [discriminate Hobs | discriminate].
  - rewrite (observe_Pending_no_Ret add _ _ _ _ _ _ Hp Hc) in Hobs;
      [discriminate Hobs | discriminate].
Qed.

Lemma X7_thunk_sum_is_memoized_witness :
  let cached v := Thunk.Build_Thunk (Thunk.ResLambda (W:=nat) (E:=string) v) in
  Thunk.Computed 2 7 {| Thunk.world := 5; Thunk.heap := [cached 3; cached 4; cached 7] |}
  /\ Thunk.observe_n Nat.add 3 2
       {| Thunk.world := 5; Thunk.heap := [cached 3; cached 4; cached 7] |}
     = Some ({| Thunk.world := 5; Thunk.heap := [cached 3; cached 4; cached 7] |},
             [Ret 7; Ret 7; Ret 7]).
Proof.
  intros cached.
  apply (X7_thunk_sum_is_memoized Nat.add 0 1 2
           {| Thunk.world := 5; Thunk.heap := [cached 3; cached 4] |}
           {| Thunk.world := 5;
              Thunk.heap :=
                [cached 3; cached 4;
                 Thunk.Build_Thunk
                   (Thunk.CtorLambda
                      (Thunk.PlusLambda (cached 3) (cached 4)) 2)] |});
    reflexivity.
Defined.

(** A left operand that throws: the right one, which would count a call,
    is not run ([calls] is 1), and no object changes. *)
Lemma X6_thunk_sum_exceptions_witness :
  let bl := fails_first 1 "boom"%string 3 in
  let br := counting (E:=string) 4 in
  let st := {| Thunk.world := 0;
               Thunk.heap :=
                 [Thunk.Build_Thunk (Thunk.CtorLambda (Thunk.UserLambda bl) 0);
                  Thunk.Build_Thunk (Thunk.CtorLambda (Thunk.UserLambda br) 1)] |} in
  exists st1 z,
    Thunk.operator_plus 0 1 st = Some (st1, z)
    /\ Thunk.observe Nat.add z st1
       = Some ({| Thunk.world := 1; Thunk.heap := Thunk.heap st1 |},
               Throw "boom"%string).
Proof.
  intros bl br st.
  destruct (X6_thunk_sum_exceptions Nat.add 0 1 0 1 bl br st)
    as (st1 & z & Hplus & Hleft & _).
  - reflexivity.
  - reflexivity.
  - exists st1, z. split; [exact Hplus|].
    apply (Hleft 1 "boom"%string). reflexivity.
Defined.

(** ** [operator<<] *)

Section PrintFacts.
Context {W E Result : Type}.
Variable add : Result -> Result -> Result.
Variable insert : Result -> W -> W.

(** Inserting a [Computed] object [n] times inserts its cached value [n]
    times and does nothing else. *)
Lemma print_n_Computed (n : nat) (a : addr) (v : Result) :
  forall st : @Thunk.state W E Result,
    Thunk.Computed a v st ->
    Thunk_print_n add insert n a st
    = Some ({| Thunk.world := Nat.iter n (insert v) (Thunk.world st);
               Thunk.heap := Thunk.heap st |}, Ret tt).
Proof.
  induction n as [|n IH]; intros st Ha.
  - destruct st; reflexivity.
  - rewrite Nat.iter_succ_r.
    cbn [Thunk_print_n]. unfold Thunk_operator_shl, Thunk.at_object.
    unfold Thunk.Computed in Ha. rewrite Ha.
    cbn [mbind option_bind Thunk.operator_Result Thunk.call].
    unfold bind, ret. cbn [Thunk.world Thunk.heap].
    rewrite IH by exact Ha. reflexivity.
Qed.
End PrintFacts.

(** X8. [thunk.cc], [operator<<]: inserting an in-place [Pending]
    [Thunk] into a stream [N + 1] times in a row, as [main] does with
    [difficult_computation], runs the computation once, before the first
    insertion, and inserts its result [N + 1] times. *)
Theorem X8_thunk_print_runs_once {W E Result : Type}
    (add : Result -> Result -> Result) (insert : Result -> W -> W)
    (a : addr) (body : W -> W * outcome E Result) (st : Thunk.state)
    (w1 : W) (v : Result) (N : nat) :
  Thunk.Pending a (Thunk.UserLambda body) a st ->
  body (Thunk.world st) = (w1, Ret v) ->
  Thunk_print_n add insert (S N) a st
  = Some ({| Thunk.world := Nat.iter (S N) (insert v) w1;
             Thunk.heap :=
               <[a := Thunk.Build_Thunk (Thunk.ResLambda v)]> (Thunk.heap st) |},
          Ret tt).
Proof.
  intros Hp Hb. cbn [Thunk_print_n].
  unfold Thunk_operator_shl, Thunk.at_object.
  pose proof Hp as Hp'. unfold Thunk.Pending in Hp'. rewrite Hp'.
  cbn [mbind option_bind].
  erewrite bind_Ret; [|apply operand_Pending_Ret; exact Hb].
  cbn [Thunk.world Thunk.heap].
  rewrite Nat.iter_succ_r.
  rewrite (print_n_Computed add insert N a v).
  - reflexivity.
  - unfold Thunk.Computed; simpl. apply list_lookup_insert_eq.
    apply lookup_lt_Some in Hp. exact Hp.
Qed.

(** [difficult_computation] of [main], inserted three times: the work is
    announced once, the result printed three times. *)
Lemma X8_thunk_print_runs_once_witness :
  let body : list string -> list string * outcome string string :=
    fun out => (out ++ ["Performing difficult work!"%string],
                Ret "Result Computed!"%string) in
  Thunk_print_n String.append (fun r out => out ++ [r]) 3 0
    (fst (Thunk.make_thunk (Thunk.UserLambda body) (Thunk.init [])))
  = Some ({| Thunk.world :=
               ["Performing difficult work!"; "Result Computed!";
                "Result Computed!"; "Result Computed!"]%string;
             Thunk.heap :=
               [Thunk.Build_Thunk (Thunk.ResLambda "Result Computed!"%string)] |},
          Ret tt).
Proof.
  intros body.
  apply (X8_thunk_print_runs_once String.append (fun r out => out ++ [r]) 0 body
           (fst (Thunk.make_thunk (Thunk.UserLambda body) (Thunk.init [])))
           ["Performing difficult work!"%string] "Result Computed!"%string 2);
    reflexivity.
Defined.

(** X9. [thunk.cc], [operator<<]: when the computation throws, the
    exception leaves [operator<<] before anything is inserted: the stream
    holds what the computation itself left, the object is [Pending] as
    before, and the rest of a chain of insertions is not run. *)
Theorem X9_thunk_print_throw_inserts_nothing {W E Result : Type}
    (add : Result -> Result -> Result) (insert : Result -> W -> W)
    (a this : addr) (body : W -> W * outcome E Result) (st : Thunk.state)
    (w1 : W) (e : E) (N : nat) :
  Thunk.Pending a (Thunk.UserLambda body) this st ->
  body (Thunk.world st) = (w1, Throw e) ->
  Thunk_operator_shl add insert a st
  = Some ({| Thunk.world := w1; Thunk.heap := Thunk.heap st |}, Throw e)
  /\ Thunk_print_n add insert (S N) a st
     = Some ({| Thunk.world := w1; Thunk.heap := Thunk.heap st |}, Throw e).
Proof.
  intros Hp Hb.
  assert (H : Thunk_operator_shl add insert a st
              = Some ({| Thunk.world := w1; Thunk.heap := Thunk.heap st |}, Throw e)).
  { unfold Thunk_operator_shl, Thunk.at_object.
    unfold Thunk.Pending in Hp. rewrite Hp. cbn [mbind option_bind].
    erewrite bind_Throw; [reflexivity|].
    apply operand_Pending_Throw. exact Hb. }
  split; [exact H|]. cbn [Thunk_print_n]. rewrite H. reflexivity.
Qed.

Lemma X9_thunk_print_throw_inserts_nothing_witness :
  let body := fails_first (Result:=nat) 1 "unavailable"%string 7 in
  let st := fst (Thunk.make_thunk (Thunk.UserLambda body) (Thunk.init 0)) in
  Thunk_operator_shl Nat.add (fun r calls => calls + 100 * r) 0 st
  = Some ({| Thunk.world := 1; Thunk.heap := Thunk.heap st |}, Throw "unavailable"%string)
  /\ Thunk_print_n Nat.add (fun r calls => calls + 100 * r) 3 0 st
     = Some ({| Thunk.world := 1; Thunk.heap := Thunk.heap st |}, Throw "unavailable"%string).
Proof.
  intros body st.
  apply (X9_thunk_print_throw_inserts_nothing Nat.add
           (fun r calls => calls + 100 * r) 0 0 body st 1 "unavailable"%string 2);
    reflexivity.
Defined.

(** X10. [lazy.cc], [operator<<]: inserting a [Lazy] into a stream [N]
    times in a row runs its computation [N] times, once before each
    insertion: each run sees what the insertions before it put on the
    stream, and the chain is left at the first run that does not
    return.  A computation that returns the number of items on the
    stream therefore prints [0, 1, ..., N - 1] on an empty stream, and
    one that counts its calls and returns [r] counts [N] calls and
    prints [r] [N] times. *)
Theorem X10_lazy_print_runs_every_time {W E Result : Type}
    (add : Result -> Result -> Result) (order : Lazy.operand_order)
    (insert : Result -> W -> W) (body : W -> W * outcome E Result)
    (r : Result) (N calls : nat) (out : list Result) (items : list nat) :
  (forall w,
      Lazy_print_n add order insert N (Lazy.make_lazy (Lazy.UserLambda body)) w
      = run_insert_n N body insert w)
  /\ Lazy_print_n (E:=E) Nat.add order (fun n out => out ++ [n]) N
       (Lazy.make_lazy (Lazy.UserLambda items_so_far)) items
     = (items ++ seq (length items) N, Ret tt)
  /\ Lazy_print_n (E:=E) add order insert_out N
       (Lazy.make_lazy (Lazy.UserLambda (counting_out r))) (calls, out)
     = ((calls + N, out ++ replicate N r), Ret tt).
Proof.
  assert (Hgen : forall (W' R' : Type) (add' : R' -> R' -> R')
                   (ins : R' -> W' -> W') (bd : W' -> W' * outcome E R') n w,
             Lazy_print_n add' order ins n (Lazy.make_lazy (Lazy.UserLambda bd)) w
             = run_insert_n n bd ins w).
  { intros W' R' add' ins bd n. induction n as [|n IH]; intros w.
    - reflexivity.
    - cbn [Lazy_print_n run_insert_n]. unfold bind at 1.
      unfold Lazy_operator_shl. unfold bind at 1. simpl.
      destruct (bd w) as [w1 [v|e|]]; [apply IH | reflexivity | reflexivity]. }
  split; [intros w; apply Hgen|]. split.
  - rewrite Hgen. revert items. induction N as [|N IH]; intros items.
    + simpl. rewrite app_nil_r. reflexivity.
    + cbn [run_insert_n]. unfold items_so_far at 1.
      rewrite IH. rewrite length_app, <- app_assoc. simpl.
      rewrite Nat.add_1_r. reflexivity.
  - rewrite Hgen. revert calls out. induction N as [|N IH]; intros calls out.
    + simpl. rewrite Nat.add_0_r, app_nil_r. reflexivity.
    + cbn [run_insert_n]. simpl. rewrite IH.
      rewrite <- app_assoc. simpl. f_equal. f_equal. lia.
Qed.

(** ** [lazy.cc]: combinations *)

(** X11. [lazy.cc], [operator+]: a combination of two [Lazy] values
    caches nothing.  Each of [N] observations runs both operands, in
    either order of the operands of [+]: with two computations that count
    their calls on one counter and return [a] and [b], the counter grows
    by [2 * N] and every observation returns [a + b]. *)
Theorem X11_lazy_sum_runs_both_every_time {E Result : Type}
    (add : Result -> Result -> Result) (order : Lazy.operand_order)
    (a b : Result) (N calls : nat) :
  Lazy.observe_n (E:=E) add order N
    (Lazy.operator_plus (Lazy.make_lazy (Lazy.UserLambda (counting a)))
                        (Lazy.make_lazy (Lazy.UserLambda (counting b)))) calls
  = (calls + 2 * N, replicate N (Ret (add a b))).
Proof.
  revert calls. induction N as [|N IH]; intros calls.
  - simpl. f_equal. lia.
  - cbn [Lazy.observe_n].
    replace (Lazy.operator_Result add order
               (Lazy.operator_plus (Lazy.make_lazy (Lazy.UserLambda (counting a)))
                  (Lazy.make_lazy (Lazy.UserLambda (counting b)))) calls)
      with (S (S calls), Ret (E:=E) (add a b)) by (destruct order; reflexivity).
    rewrite IH. simpl. f_equal. lia.
Qed.

(** X12. [lazy.cc], [operator+]: for an expression built with [+] from
    [Lazy] values over pure computations, the order in which the operands
    of [+] are evaluated cannot be seen: under either order every
    observation leaves the world alone and returns the sum of the leaves'
    values, as often as it is observed. *)
Theorem X12_lazy_pure_sum_any_order {W E Result : Type}
    (add : Result -> Result -> Result) (l : @Lazy.Lazy W E Result) (v : Result) :
  pure_value add l v ->
  forall (order : Lazy.operand_order) (w : W) (N : nat),
    Lazy.operator_Result add order l w = (w, Ret v)
    /\ Lazy.observe_n add order N l w = (w, replicate N (Ret v)).
Proof.
  intros Hl order.
  assert (H1 : forall w, Lazy.operator_Result add order l w = (w, Ret v)).
  { induction Hl as [body v Hb | l r a b _ IHl _ IHr]; intros w.
    - simpl. apply Hb.
    - simpl. destruct order.
      + erewrite bind_Ret; [|apply IHl]. erewrite bind_Ret; [|apply IHr].
        reflexivity.
      + erewrite bind_Ret; [|apply IHr]. erewrite bind_Ret; [|apply IHl].
        reflexivity. }
  intros w N. split; [apply H1|].
  induction N as [|N IH]; simpl; [reflexivity|].
  rewrite H1, IH. reflexivity.
Qed.

(** [(3 + 4) + 5] over constant lambdas, right operands first. *)
Lemma X12_lazy_pure_sum_any_order_witness :
  let leaf (n : Z) : @Lazy.Lazy unit string Z :=
    Lazy.make_lazy (Lazy.UserLambda (fun w => (w, Ret n))) in
  let l := Lazy.operator_plus (Lazy.operator_plus (leaf 3%Z) (leaf 4%Z)) (leaf 5%Z) in
  Lazy.operator_Result Z.add Lazy.RightFirst l tt = (tt, Ret 12%Z)
  /\ Lazy.observe_n Z.add Lazy.RightFirst 2 l tt = (tt, [Ret 12%Z; Ret 12%Z]).
Proof.
  intros leaf l.
  apply (X12_lazy_pure_sum_any_order Z.add l (3 + 4 + 5)%Z).
  apply pure_plus; [apply pure_plus|]; apply pure_leaf; reflexivity.
Defined.

(** ** [thunk_lambda.cc] *)

(** An observation that returns leaves the object [Computed]. *)
Lemma vobserve_Ret_Computed {W E Result : Type} (a : addr)
    (st st' : @ThunkVariant.state W E Result) (v : Result) :
  ThunkVariant.observe a st = Some (st', Ret v) ->
  ThunkVariant.Computed a v st'.
Proof.
  open_vobserve. unfold ThunkVariant.Computed.
  destruct (ThunkVariant.heap st !! a) as [[[c|v0]]|] eqn:Ha; simpl;
    [| |discriminate].
  - unfold bind, ThunkVariant.invoke.
    destruct (c (ThunkVariant.world st)) as [w1 [v1|e|]]; simpl;
      [|discriminate|discriminate].
    intros [= <- <-]. simpl. apply list_lookup_insert_eq.
    apply lookup_lt_Some in Ha. exact Ha.
  - intros [= <- <-]. exact Ha.
Qed.

(** X13. [thunk_lambda.cc]: [visit] and [operator Result] are
    [noexcept(true)] for every [Lambda], so an exception of the
    computation never reaches the caller: neither of them ever leaves by
    an exception.  [operator T] leaves by an exception in one case only:
    the observation has returned a value, the conversion of that value
    throws, and the conversion is not declared [noexcept]; the value is
    cached by then. *)
Theorem X13_variant_never_throws {W E Result T : Type}
    (a : addr) (st : @ThunkVariant.state W E Result)
    (conv_noexcept : bool) (conversion : Result -> outcome E T) (e : E) :
  snd <$> ThunkVariant.visit a st <> Some (Throw e)
  /\ snd <$> ThunkVariant.observe a st <> Some (Throw e)
  /\ forall st',
       ThunkVariant.operator_T_of conv_noexcept conversion a st
       = Some (st', Throw e)
       <-> conv_noexcept = false
           /\ exists v, ThunkVariant.observe a st = Some (st', Ret v)
                        /\ ThunkVariant.Computed a v st'
                        /\ conversion v = Throw e.
Proof.
  assert (Hv : forall e0 : E, snd <$> ThunkVariant.visit a st <> Some (Throw e0)).
  { intros e0. unfold ThunkVariant.visit, noexcept.
    destruct (ThunkVariant.heap st !! a) as [[[c|v]]|]; simpl;
      [|discriminate|discriminate].
    unfold bind, ThunkVariant.invoke.
    destruct (c (ThunkVariant.world st)) as [w' [v|e'|]]; simpl; discriminate. }
  assert (Ho : forall e0 : E, snd <$> ThunkVariant.observe a st <> Some (Throw e0)).
  { intros e0. unfold ThunkVariant.observe, ThunkVariant.operator_Result, noexcept.
    destruct (ThunkVariant.visit a st) as [[s' [v|e'|]]|]; simpl;
      discriminate. }
  split; [apply Hv|]. split; [apply Ho|].
  intros st'. unfold ThunkVariant.operator_T_of, noexcept.
  fold (@ThunkVariant.observe W E Result a st).
  destruct (ThunkVariant.observe a st) as [[s1 [v|e'|]]|] eqn:Hobs; simpl.
  - pose proof (vobserve_Ret_Computed a st s1 v Hobs) as HC.
    destruct (conversion v) as [t|e1|] eqn:Hconv; simpl.
    + split; [discriminate|]. intros (_ & v' & [= <- <-] & _ & Hc). congruence.
    + destruct conv_noexcept; simpl.
      * split; [discriminate|]. intros [Hf _]. discriminate Hf.
      * split.
        -- intros [= <- <-]. split; [reflexivity|]. exists v. auto.
        -- intros (_ & v' & [= <- <-] & _ & Hc). congruence.
    + split; [discriminate|]. intros (_ & v' & [= <- <-] & _ & Hc). congruence.
  - exfalso. apply (Ho e'). reflexivity.
  - split; [discriminate|]. intros (_ & v' & Hv' & _). discriminate Hv'.
  - split; [discriminate|]. intros (_ & v' & Hv' & _). discriminate Hv'.
Qed.

(** A computation returning -1 and a checked conversion to [nat] that
    throws on negative values: the conversion's exception reaches the
    caller, and -1 is cached. *)
Lemma X13_variant_never_throws_witness :
  let checked (z : Z) : outcome string nat :=
    if (z <? 0)%Z then Throw "negative"%string else Ret (Z.to_nat z) in
  let st := fst (ThunkVariant.make_thunk (counting (E:=string) (-1)%Z)
                   (ThunkVariant.init 0)) in
  let st' := {| ThunkVariant.world := 1;
                ThunkVariant.heap :=
                  [{| ThunkVariant.d_thunk := ThunkVariant.holds_Result (-1)%Z |}] |} in
  ThunkVariant.operator_T_of false checked 0 st = Some (st', Throw "negative"%string).
Proof.
  intros checked st st'.
  destruct (X13_variant_never_throws 0 st false checked "negative"%string)
    as (_ & _ & H).
  apply (H st'). split; [reflexivity|].
  exists (-1)%Z. repeat split.
Defined.

(** X14. [thunk_lambda.cc]: [visit] emplaces a [Result] only while the
    variant holds the [Lambda].  Once an object is [Computed v] it is
    [Computed v] after every sequence of constructions, copies,
    observations and conversions of any objects, and observing it
    returns [v] and changes nothing. *)
Theorem X14_variant_cache_is_final {W E Result : Type}
    (a : addr) (v : Result) (st st' : @ThunkVariant.state W E Result) (N : nat) :
  rtc vstep st st' ->
  ThunkVariant.Computed a v st ->
  ThunkVariant.Computed a v st'
  /\ ThunkVariant.observe_n N a st' = Some (st', replicate N (Ret v)).
Proof.
  intros Hsteps Ha.
  destruct (ThunkVariant_Computed_forever a v st st' Hsteps Ha) as [Ha' _].
  split; [exact Ha' | apply vobserve_n_Computed; exact Ha'].
Qed.

(** The object at 0 is cached; its copy at 1, taken while it was
    [Pending], is observed and caches another value; 0 keeps its own. *)
Lemma X14_variant_cache_is_final_witness :
  let cached v := {| ThunkVariant.d_thunk := ThunkVariant.holds_Result (W:=nat) (E:=string) v |} in
  let pending := {| ThunkVariant.d_thunk := ThunkVariant.holds_Lambda ticking |} in
  ThunkVariant.Computed 0 1 {| ThunkVariant.world := 2; ThunkVariant.heap := [cached 1; cached 2] |}
  /\ ThunkVariant.observe_n 2 0
       {| ThunkVariant.world := 2; ThunkVariant.heap := [cached 1; cached 2] |}
     = Some ({| ThunkVariant.world := 2; ThunkVariant.heap := [cached 1; cached 2] |},
             [Ret 1; Ret 1]).
Proof.
  intros cached pending.
  apply (X14_variant_cache_is_final 0 1
           {| ThunkVariant.world := 1; ThunkVariant.heap := [cached 1; pending] |}).
  - eapply rtc_l; [|apply rtc_refl].
    apply (vstep_observe 1 _ _ (Ret 2)). reflexivity.
  - reflexivity.
Defined.

(** X15. [thunk_lambda.cc]: the defaulted copy constructor copies the
    variant, and [visit] writes to the object it is called on.  The copy
    of a [Pending] object is a second [Pending] object: observing the
    copy runs the computation and caches in the copy alone; observing the
    original afterwards runs the computation again, on the world the
    first run left, and caches that result in the original; the copy
    keeps its own. *)
Theorem X15_variant_copies_are_independent {W E Result : Type}
    (a : addr) (c : W -> W * outcome E Result)
    (st : ThunkVariant.state) (w1 w2 : W) (v1 v2 : Result) :
  ThunkVariant.Pending a c st ->
  c (ThunkVariant.world st) = (w1, Ret v1) ->
  c w1 = (w2, Ret v2) ->
  exists st1 b st2 st3,
    ThunkVariant.Thunk_copy a st = Some (st1, b)
    /\ ThunkVariant.world st1 = ThunkVariant.world st
    /\ ThunkVariant.observe b st1 = Some (st2, Ret v1)
    /\ ThunkVariant.world st2 = w1
    /\ ThunkVariant.Computed b v1 st2
    /\ ThunkVariant.Pending a c st2
    /\ ThunkVariant.observe a st2 = Some (st3, Ret v2)
    /\ ThunkVariant.world st3 = w2
    /\ ThunkVariant.Computed a v2 st3
    /\ ThunkVariant.Computed b v1 st3.
Proof.
  intros Ha H1 H2.
  destruct (vcopy_Pending a c st Ha) as (Hcopy & Hne & Ha1 & Hb1).
  match type of Hcopy with _ = Some (?s, ?b) =>
    destruct (vcopies_independent a b c s w1 w2 v1 v2 0 0 Hne Ha1 Hb1 H1 H2)
      as (st2 & st3 & Hob & Hw1 & HCb & Ha2 & Hoa & Hw2 & HCa & HCb' & _)
  end.
  eexists _, _, st2, st3.
  split; [exact Hcopy|]. split; [reflexivity|].
  repeat (split; [assumption|]). assumption.
Qed.

Lemma X15_variant_copies_are_independent_witness :
  exists st1 b st2 st3,
    ThunkVariant.Thunk_copy 0
      (fst (ThunkVariant.make_thunk (E:=string) ticking (ThunkVariant.init 0)))
    = Some (st1, b)
    /\ ThunkVariant.world st1 = 0
    /\ ThunkVariant.observe b st1 = Some (st2, Ret 1)
    /\ ThunkVariant.world st2 = 1
    /\ ThunkVariant.Computed b 1 st2
    /\ ThunkVariant.Pending 0 ticking st2
    /\ ThunkVariant.observe 0 st2 = Some (st3, Ret 2)
    /\ ThunkVariant.world st3 = 2
    /\ ThunkVariant.Computed 0 2 st3
    /\ ThunkVariant.Computed b 1 st3.
Proof.
  apply (X15_variant_copies_are_independent 0 ticking
           (fst (ThunkVariant.make_thunk (E:=string) ticking (ThunkVariant.init 0)))
           1 2 1 2); reflexivity.
Defined.

(** ** Conversions and copies *)

(** X16. [thunk.cc], [thunk_lambda.cc]: [operator T] caches the [Result],
    not the converted value.  The first conversion of a [Pending] object
    runs the computation once and caches its result [v]; a later
    conversion to another type converts the same cached [v], and a later
    observation returns [v]; neither runs anything or changes the
    state. *)
Theorem X16_conversions_share_the_cache {W E Result T U : Type}
    (add : Result -> Result -> Result) (rt : Result -> T) (ru : Result -> U)
    (body : W -> W * outcome E Result) (w1 : W) (v : Result)
    (st : Thunk.state) (a : addr)
    (stV : ThunkVariant.state) (aV : addr) (b b' : bool) :
  body (Thunk.world st) = (w1, Ret v) ->
  Thunk.Pending a (Thunk.UserLambda body) a st ->
  ThunkVariant.world stV = Thunk.world st ->
  ThunkVariant.Pending aV body stV ->
  let st' :=
    {| Thunk.world := w1;
       Thunk.heap := <[a := Thunk.Build_Thunk (Thunk.ResLambda v)]> (Thunk.heap st) |} in
  let stV' :=
    {| ThunkVariant.world := w1;
       ThunkVariant.heap :=
         <[aV := {| ThunkVariant.d_thunk := ThunkVariant.holds_Result v |}]>
           (ThunkVariant.heap stV) |} in
  (Thunk.convert add rt a st = Some (st', Ret (rt v))
   /\ Thunk.convert add ru a st' = Some (st', Ret (ru v))
   /\ Thunk.observe add a st' = Some (st', Ret v))
  /\ (ThunkVariant.operator_T b rt aV stV = Some (stV', Ret (rt v))
      /\ ThunkVariant.operator_T b' ru aV stV' = Some (stV', Ret (ru v))
      /\ ThunkVariant.observe aV stV' = Some (stV', Ret v)).
Proof.
  intros Hb Hp Hw HpV st' stV'.
  destruct (observe_n_own_user add a body st w1 v 0 Hp Hb) as (Ho & HC & _).
  rewrite <- Hw in Hb.
  destruct (vobserve_n_Pending_Ret aV body stV w1 v 0 HpV Hb) as (HoV & HCV & _).
  fold st' in Ho, HC. fold stV' in HoV, HCV.
  pose proof (observe_Computed add a v st' HC) as Ho'.
  pose proof (vobserve_Computed aV v stV' HCV) as HoV'.
  split.
  - rewrite !Thunk_convert_observe, Ho, Ho'. repeat split.
  - rewrite !ThunkVariant_convert_observe, HoV, HoV'. repeat split.
Qed.

(** A counted computation returning 42, converted with [Z.to_nat] and
    then with [Z.even]: one call. *)
Lemma X16_conversions_share_the_cache_witness :
  let st := fst (Thunk.make_thunk (Thunk.UserLambda (counting (E:=string) 42%Z))
                   (Thunk.init 0)) in
  let st' := {| Thunk.world := 1;
                Thunk.heap := [Thunk.Build_Thunk (Thunk.ResLambda 42%Z)] |} in
  Thunk.convert Z.add Z.to_nat 0 st = Some (st', Ret 42)
  /\ Thunk.convert Z.add Z.even 0 st' = Some (st', Ret true)
  /\ Thunk.observe Z.add 0 st' = Some (st', Ret 42%Z).
Proof.
  intros st st'.
  destruct (X16_conversions_share_the_cache Z.add Z.to_nat Z.even
              (counting (E:=string) 42%Z) 1 42%Z st 0
              (fst (ThunkVariant.make_thunk (counting (E:=string) 42%Z)
                      (ThunkVariant.init 0))) 0 true true) as [H _];
    try reflexivity.
  exact H.
Defined.

(** An object whose closure holds the [this] of another object never
    caches in itself. *)
Lemma observe_n_stale_this {W E Result : Type}
    (add : Result -> Result -> Result) (c p : addr)
    (body : W -> W * outcome E Result) (N : nat) :
  c <> p ->
  (forall w, snd (body w) <> Terminate) ->
  forall st : Thunk.state,
    Thunk.Pending c (Thunk.UserLambda body) p st ->
    exists st',
      Thunk.observe_n add N c st = Some (st', snd (run_n N body (Thunk.world st)))
      /\ Thunk.world st' = fst (run_n N body (Thunk.world st))
      /\ Thunk.Pending c (Thunk.UserLambda body) p st'.
Proof.
  intros Hne Hterm. induction N as [|N IH]; intros st Hp.
  - exists st. repeat split. exact Hp.
  - cbn [Thunk.observe_n run_n].
    pose proof (Hterm (Thunk.world st)) as Hnt.
    destruct (body (Thunk.world st)) as [w1 o] eqn:Hb.
    assert (Hobs : exists s1,
               Thunk.observe add c st = Some (s1, o)
               /\ Thunk.world s1 = w1
               /\ Thunk.Pending c (Thunk.UserLambda body) p s1).
    { unfold Thunk.Pending in Hp. open_observe. rewrite Hp.
      cbn [mbind option_bind].
      destruct o as [v|e|]; [| |destruct (Hnt eq_refl)].
      - rewrite (operand_Pending_Ret add body p st w1 v Hb).
        eexists. split; [reflexivity|]. split; [reflexivity|].
        unfold Thunk.Pending; simpl.
        rewrite list_lookup_insert_ne by congruence. exact Hp.
      - rewrite (operand_Pending_Throw add body p st w1 e Hb).
        eexists. split; [reflexivity|]. split; [reflexivity|]. exact Hp. }
    destruct Hobs as (s1 & Ho & Hw1 & Hp1). rewrite Ho.
    destruct (IH s1 Hp1) as (s2 & Hn & Hw2 & Hp2).
    rewrite Hw1 in Hn, Hw2. rewrite Hn.
    destruct (run_n N body w1) as [w2 os] eqn:Hr. simpl in *.
    exists s2.
    destruct o as [v|e|]; [| |destruct (Hnt eq_refl)];
      (split; [reflexivity|]; split; assumption).
Qed.

(** X17. [thunk.cc]: the defaulted copy constructor copies the closure
    with the [this] it captured.  The copy of an in-place [Pending]
    [Thunk] therefore never caches in itself: [N] observations of the
    copy are [N] runs of the computation, each on the world the previous
    one left, exactly as for a [Lazy], and the copy is [Pending]
    afterwards, still holding the [this] of the original. *)
Theorem X17_thunk_copy_recomputes_like_lazy {W E Result : Type}
    (add : Result -> Result -> Result) (a : addr)
    (body : W -> W * outcome E Result) (N : nat) (st : Thunk.state) :
  Thunk.Pending a (Thunk.UserLambda body) a st ->
  (forall w, snd (body w) <> Terminate) ->
  exists st1 c st',
    Thunk.Thunk_copy a st = Some (st1, c)
    /\ Thunk.world st1 = Thunk.world st
    /\ Thunk.observe_n add N c st1
       = Some (st', snd (run_n N body (Thunk.world st)))
    /\ Thunk.world st' = fst (run_n N body (Thunk.world st))
    /\ Thunk.Pending c (Thunk.UserLambda body) a st'.
Proof.
  intros Hp Hterm.
  pose proof (lookup_lt_Some _ _ _ Hp) as Hlt.
  set (st1 := {| Thunk.world := Thunk.world st;
                 Thunk.heap :=
                   Thunk.heap st
                   ++ [Thunk.Build_Thunk
                         (Thunk.CtorLambda (Thunk.UserLambda body) a)] |}).
  assert (Hcopy : Thunk.Thunk_copy a st = Some (st1, length (Thunk.heap st))).
  { unfold Thunk.Thunk_copy. unfold Thunk.Pending in Hp. rewrite Hp. reflexivity. }
  assert (Hpc : Thunk.Pending (length (Thunk.heap st)) (Thunk.UserLambda body) a st1).
  { unfold Thunk.Pending; simpl. apply list_lookup_middle. reflexivity. }
  destruct (observe_n_stale_this add (length (Thunk.heap st)) a body N
              ltac:(lia) Hterm st1 Hpc) as (st' & Hn & Hw & Hp').
  exists st1, (length (Thunk.heap st)), st'.
  split; [exact Hcopy|]. split; [reflexivity|].
  split; [exact Hn|]. split; [exact Hw | exact Hp'].
Qed.

Lemma X17_thunk_copy_recomputes_like_lazy_witness :
  exists st1 c st',
    Thunk.Thunk_copy 0
      (fst (Thunk.make_thunk (Thunk.UserLambda ticking) (Thunk.init 0)))
    = Some (st1, c)
    /\ Thunk.world st1 = 0
    /\ Thunk.observe_n Nat.add 3 c st1 = Some (st', [Ret 1; Ret 2; Ret 3])
    /\ Thunk.world st' = 3
    /\ Thunk.Pending c (Thunk.UserLambda ticking) 0 st'.
Proof.
  apply (X17_thunk_copy_recomputes_like_lazy Nat.add 0 ticking 3
           (fst (Thunk.make_thunk (Thunk.UserLambda ticking) (Thunk.init 0)))).
  - reflexivity.
  - intros w. discriminate.
Defined.

(** X18. [thunk.cc]: the copy of a [Computed] [Thunk] holds the trivial
    closure, which captures no [this].  Original and copy return the
    cached value however often they are observed, and nothing runs and
    nothing changes. *)
Theorem X18_thunk_copy_of_computed {W E Result : Type}
    (add : Result -> Result -> Result) (a : addr) (v : Result)
    (st : @Thunk.state W E Result) (n m : nat) :
  Thunk.Computed a v st ->
  let st1 := {| Thunk.world := Thunk.world st;
                Thunk.heap :=
                  Thunk.heap st ++ [Thunk.Build_Thunk (Thunk.ResLambda v)] |} in
  Thunk.Thunk_copy a st = Some (st1, length (Thunk.heap st))
  /\ Thunk.observe_n add n (length (Thunk.heap st)) st1
     = Some (st1, replicate n (Ret v))
  /\ Thunk.observe_n add m a st1 = Some (st1, replicate m (Ret v)).
Proof.
  intros Ha st1. unfold Thunk.Thunk_copy.
  pose proof Ha as Ha'. unfold Thunk.Computed in Ha'. rewrite Ha'.
  split; [reflexivity|]. split.
  - apply observe_n_Computed. unfold Thunk.Computed; simpl.
    apply list_lookup_middle. reflexivity.
  - apply observe_n_Computed. unfold Thunk.Computed; simpl.
    apply lookup_app_l_Some. exact Ha.
Qed.

Lemma X18_thunk_copy_of_computed_witness :
  let cached := Thunk.Build_Thunk (Thunk.ResLambda (W:=nat) (E:=string) 42%Z) in
  Thunk.Thunk_copy 0 {| Thunk.world := 1; Thunk.heap := [cached] |}
  = Some ({| Thunk.world := 1; Thunk.heap := [cached; cached] |}, 1)
  /\ Thunk.observe_n Z.add 2 1 {| Thunk.world := 1; Thunk.heap := [cached; cached] |}
     = Some ({| Thunk.world := 1; Thunk.heap := [cached; cached] |}, [Ret 42%Z; Ret 42%Z])
  /\ Thunk.observe_n Z.add 2 0 {| Thunk.world := 1; Thunk.heap := [cached; cached] |}
     = Some ({| Thunk.world := 1; Thunk.heap := [cached; cached] |}, [Ret 42%Z; Ret 42%Z]).
Proof.
  intros cached.
  apply (X18_thunk_copy_of_computed Z.add 0 42%Z
           {| Thunk.world := 1; Thunk.heap := [cached] |} 2 2).
  reflexivity.
Defined.
